(** * The TypeDoc converter (src/lib/converter/converter.ts)

    A shallow embedding of the [Converter] class: the registry of type
    converters, the node traversal with its visit stack, the type
    resolution pipeline, the diagnostic pipeline and the [convert]
    lifecycle, followed by the properties proved about them. *)

From Stdlib Require Import Ascii ZArith Sorted.
From stdpp Require Import base list gmap strings.

Local Open Scope Z_scope.

(** ** JavaScript strings

    A string is its sequence of UTF-16 code units, and a character of
    [string] is one code unit by its number: the strings modelled are
    those whose code units lie below 256 (ISO 8859-1).  The character
    classes below are what [\w] and [\s] match in that range, and
    [toLowerCase] is what [String.prototype.toLowerCase] does there. *)

Module JsString.

Definition code (c : ascii) : N := N_of_ascii c.

(** [\w] : letters, digits and the underscore. *)
Definition isWordChar (c : ascii) : bool :=
  let n := code c in
  ((65 <=? n) && (n <=? 90) || (97 <=? n) && (n <=? 122)
   || (48 <=? n) && (n <=? 57) || (n =? 95))%N.

(** [\s] : tab, line feed, vertical tab, form feed, carriage return,
    space and the no-break space U+00A0. *)
Definition isWhiteSpace (c : ascii) : bool :=
  let n := code c in
  ((9 <=? n) && (n <=? 13) || (n =? 32) || (n =? 160))%N.

(** The lower case of a code unit: [A]-[Z] and the capital letters
    U+00C0-U+00DE, the multiplication sign U+00D7 apart, move up by 32. *)
Definition lowerChar (c : ascii) : ascii :=
  let n := code c in
  if ((65 <=? n) && (n <=? 90)
      || (192 <=? n) && (n <=? 222) && negb (n =? 215))%N
  then ascii_of_N (n + 32) else c.

(** [s.toLowerCase()] *)
Fixpoint toLowerCase (s : string) : string :=
  match s with
  | EmptyString => EmptyString
  | String c s' => String (lowerChar c) (toLowerCase s')
  end.

(** [p] is a prefix of [s]. *)
Fixpoint startsWith (p s : string) : bool :=
  match p, s with
  | EmptyString, _ => true
  | String a p', String b s' => if decide (a = b) then startsWith p' s' else false
  | String _ _, EmptyString => false
  end.

(** [s.indexOf(needle)] : the first index at which [needle] occurs, or -1. *)
Fixpoint indexOf (needle s : string) : Z :=
  if startsWith needle s then 0
  else match s with
       | EmptyString => -1
       | String _ s' =>
           let i := indexOf needle s' in
           if i =? -1 then -1 else i + 1
       end.

Fixpoint drop (n : nat) (s : string) : string :=
  match n, s with
  | O, _ => s
  | S n', String _ s' => drop n' s'
  | S _, EmptyString => EmptyString
  end.

Fixpoint take (n : nat) (s : string) : string :=
  match n, s with
  | S n', String c s' => String c (take n' s')
  | _, _ => EmptyString
  end.

(** The number of leading white space characters: what a greedy [\s*]
    consumes. *)
Fixpoint leadingSpaces (s : string) : nat :=
  match s with
  | String c s' => if isWhiteSpace c then S (leadingSpaces s') else O
  | EmptyString => O
  end.

End JsString.

(** ** The tag pattern of [convertNode]

    [var tagRegex = /@(?:notSupportedIn)\s*((?:[\w]+, )*[\w]+)/g]  *)

Module TagRegex.
Import JsString.

(** The length of the text matched by the capturing group
    [((?:[\w]+, )*[\w]+)] at the start of [s], if it matches there.  Each
    [[\w]+] takes a maximal run of word characters (a shorter run is
    followed by a word character, never by a comma or by the end of the
    pattern's needs); the starred group takes as many [word, ] items as
    leave a word for the final [[\w]+], which is what backtracking out of
    a last failed item amounts to. *)
Fixpoint featureListLength (s : string) : option nat :=
  match s with
  | EmptyString => None
  | String c s' =>
      if isWordChar c then
        match featureListLength s' with
        | Some n => Some (S n)
        | None =>
            match s' with
            | String "," (String " " s'') =>
                match featureListLength s'' with
                | Some n => Some (3 + n)%nat
                | None => Some 1%nat
                end
            | _ => Some 1%nat
            end
        end
      else None
  end.

Definition marker : string := "@notSupportedIn".

(** The match of the whole pattern anchored at the start of [s]: the
    length of the matched text and the text of group 1. *)
Definition matchAt (s : string) : option (nat * string) :=
  if startsWith marker s then
    let afterMarker := drop (String.length marker) s in
    let spaces := leadingSpaces afterMarker in
    let rest := drop spaces afterMarker in
    match featureListLength rest with
    | Some n => Some ((String.length marker + spaces + n)%nat, take n rest)
    | None => None
    end
  else None.

(** [tagRegex.exec(s)] with [lastIndex = 0]: the leftmost match, as the
    match array's element 1 (the capturing group), or null. *)
Fixpoint exec (s : string) : option string :=
  match matchAt s with
  | Some (_, group) => Some group
  | None =>
      match s with
      | EmptyString => None
      | String _ s' => exec s'
      end
  end.

(** [s.replace(tagRegex, '')] : every match is removed (the pattern is
    global); [skip] counts the characters of the current match that are
    still to be dropped. *)
Fixpoint removeFrom (skip : nat) (s : string) : string :=
  match s with
  | EmptyString => EmptyString
  | String c s' =>
      match skip with
      | S k => removeFrom k s'
      | O =>
          match matchAt s with
          | Some (len, _) => removeFrom (len - 1) s'
          | None => String c (removeFrom 0 s')
          end
      end
  end.

Definition replace (s : string) : string := removeFrom 0 s.

(** [s.split(/,\s?/)] *)
Fixpoint split (s : string) : list string :=
  match s with
  | EmptyString => [EmptyString]
  | String c s' =>
      if decide (c = ","%char) then
        match s' with
        | String d s'' =>
            if isWhiteSpace d then EmptyString :: split s''
            else EmptyString :: split s'
        | EmptyString => EmptyString :: split s'
        end
      else
        match split s' with
        | piece :: pieces => String c piece :: pieces
        | [] => [String c EmptyString]
        end
  end.

End TagRegex.

(** ** The data model *)

(** Syntax tree nodes, checker types and converter components are objects
    passed by reference: the model names each by its identity and reads
    its fields from the host environment ([Host] below).  [indexOf] and
    [===] on such objects compare the identities. *)
Definition Node := nat.
Definition TsType := nat.
Definition ComponentRef := nat.

(** A heap address of an array. *)
Definition Loc := nat.

Record Diagnostic := { diagCode : Z; messageText : string }.

(** The rendering [toString()] of a type of the documentation model is the
    only part of it the converter reads. *)
Record ModelType := { typeId : nat; toString : string }.

Inductive ReflectionKind :=
| CoveoComponent
| OtherKind (code : Z).

Record CommentTag := { tagName : string; paramName : string; tagText : string }.

Record Comment := {
  shortText : string;
  text : string;
  tags : option (list CommentTag)
}.

Record Reflection := {
  reflId : nat;
  (** [result instanceof DeclarationReflection] *)
  isDeclarationReflection : bool;
  kind : ReflectionKind;
  comment : option Comment;
  notSupportedIn : option (list string);
  (** [ReflectionFlag.CoveoComponentOptions] *)
  flagCoveoComponentOptions : bool;
  extendedTypes : option (list ModelType);
  implementedTypes : option (list ModelType)
}.

Definition setComment (c : Comment) (r : Reflection) : Reflection :=
  {| reflId := reflId r; isDeclarationReflection := isDeclarationReflection r;
     kind := kind r; comment := Some c; notSupportedIn := notSupportedIn r;
     flagCoveoComponentOptions := flagCoveoComponentOptions r;
     extendedTypes := extendedTypes r; implementedTypes := implementedTypes r |}.

Definition setNotSupportedIn (l : list string) (r : Reflection) : Reflection :=
  {| reflId := reflId r; isDeclarationReflection := isDeclarationReflection r;
     kind := kind r; comment := comment r; notSupportedIn := Some l;
     flagCoveoComponentOptions := flagCoveoComponentOptions r;
     extendedTypes := extendedTypes r; implementedTypes := implementedTypes r |}.

Definition setFlagCoveoComponentOptions (b : bool) (r : Reflection) : Reflection :=
  {| reflId := reflId r; isDeclarationReflection := isDeclarationReflection r;
     kind := kind r; comment := comment r; notSupportedIn := notSupportedIn r;
     flagCoveoComponentOptions := b;
     extendedTypes := extendedTypes r; implementedTypes := implementedTypes r |}.

Definition setKind (k : ReflectionKind) (r : Reflection) : Reflection :=
  {| reflId := reflId r; isDeclarationReflection := isDeclarationReflection r;
     kind := k; comment := comment r; notSupportedIn := notSupportedIn r;
     flagCoveoComponentOptions := flagCoveoComponentOptions r;
     extendedTypes := extendedTypes r; implementedTypes := implementedTypes r |}.

Definition setTags (t : list CommentTag) (c : Comment) : Comment :=
  {| shortText := shortText c; text := text c; tags := Some t |}.

(** The four diagnostic phases of the compiler, in the order [compile]
    asks for them. *)
Inductive Phase := OptionsPhase | SyntacticPhase | GlobalPhase | SemanticPhase.

(** [ts.Program] as the converter reads it. *)
Record Program := {
  getSourceFiles : list Node;
  getOptionsDiagnostics : list Diagnostic;
  getSyntacticDiagnostics : list Diagnostic;
  getGlobalDiagnostics : list Diagnostic;
  getSemanticDiagnostics : list Diagnostic
}.

(** What the lookup [application.notSupportedFeaturesConfig[key]] yields
    when it is truthy, an entry of the object or a property it inherits:
    the texts that [${tagValueInfo.link}] and [${tagValueInfo.name}]
    render in the template string. *)
Record FeatureInfo := { link : string; name : string }.

(** What the body of a node converter's [convert(context, node)] can do:
    return a reflection or nothing, throw, convert a child node through
    [this.owner.convertNode(context, child)] and go on with its result,
    or store a reflection in [context.project.reflections].  Reflections
    are passed on by value; the project keeps their identifiers. *)
Inductive Plugin :=
| Return (result : option Reflection)
| Raise (message : string)
| ConvertChild (child : Node) (k : option Reflection -> Plugin)
| RegisterReflection (r : Reflection) (k : Plugin).

(** [ConverterNodeComponent] *)
Record ConverterNodeComponent := {
  supports : list Z;
  convert_ : Node -> Plugin
}.

(** [ConverterTypeComponent]: [nodeRole] is present when the object has
    both [supportsNode] and [convertNode], [typeRole] when it has both
    [supportsType] and [convertType]. *)
Record ConverterTypeComponent := {
  priority : option Z;
  nodeRole :
    option ((Node -> option TsType -> bool) * (Node -> option TsType -> option ModelType));
  typeRole :
    option ((TsType -> bool) * (TsType -> option ModelType))
}.

(** The collaborators of the converter that live outside converter.ts. *)
Record Host := {
  (** [normalizePath] of utils/fs *)
  normalizePath : string -> string;
  (** [_ts.normalizeSlashes] *)
  normalizeSlashes : string -> string;
  (** [Path.isAbsolute] and [Path.join] *)
  isAbsolute : string -> bool;
  pathJoin : string -> string -> string;
  (** [compilerHost.currentDirectory] *)
  currentDirectory : string;
  (** [ts.createProgram(fileNames, options, host)] *)
  createProgram : list string -> Program;
  (** [context.getTypeAtLocation(node)] *)
  getTypeAtLocation : Node -> option TsType;
  (** [node.kind] *)
  nodeKind : Node -> Z;
  (** [getRawComment(node)] *)
  getRawComment : Node -> option string;
  (** [parseComment(text)] *)
  parseComment : string -> Comment;
  (** [application.notSupportedFeaturesConfig[key]], [None] when the
      lookup is falsy *)
  notSupportedFeaturesConfig : string -> option FeatureInfo;
  (** the converter component objects, by identity *)
  nodeComponent : ComponentRef -> ConverterNodeComponent;
  typeComponent : ComponentRef -> ConverterTypeComponent;
  (** the engine's [Array.prototype.sort] on elements that the comparison
      function makes equal: [sortTies array x y] tells whether [x], which
      stands before [y] in [array], is left before it.  ECMAScript 2019
      requires that it is; earlier editions leave the order to the
      engine. *)
  sortTies : list ComponentRef -> ComponentRef -> ComponentRef -> bool
}.

(** The fields of the [Converter] object. *)
Record Converter := {
  nodeConverters : gmap Z ComponentRef;
  typeNodeConverters : list ComponentRef;
  typeTypeConverters : list ComponentRef
}.

(** [Context]: the file names and the visit stack are arrays held by
    reference; [project] stands for [context.project.reflections], given
    by its keys, the identifiers of the reflections stored in it, in the
    order in which [for (let id in ...)] enumerates integer keys. *)
Record Context := {
  fileNames : Loc;
  visitStack : Loc;
  project : list nat;
  program : Program
}.

(** What the converter asks of the outside, in the order it does. *)
Inductive Event :=
| EvCreateProgram (files : list string)
| EvTrigger (event : string) (reflection : option nat)
| EvConvert (converter : ComponentRef) (node : Node)
| EvDiagnostics (phase : Phase)
| EvGetTypeAtLocation (node : Node)
| EvSupportsNode (converter : ComponentRef)
| EvConvertNode (converter : ComponentRef)
| EvSupportsType (converter : ComponentRef)
| EvConvertType (converter : ComponentRef).

(** The mutable state a conversion runs in. *)
Record World := {
  (** the arrays of nodes (visit stacks), by address *)
  nodeArrays : list (list Node);
  (** the arrays of strings (file name lists), by address *)
  stringArrays : list (list string);
  (** [sourceFile.fileName] *)
  fileNameOf : gmap Node string;
  (** the [Context] object of the running conversion *)
  ctx : Context;
  log : list Event
}.

Inductive Error :=
| TypeError (message : string)
| PluginError (message : string).

Inductive Outcome (A : Type) :=
| Ok (a : A) (w : World)
| Throw (e : Error)
| OutOfFuel.
Arguments Ok {A} a w.
Arguments Throw {A} e.
Arguments OutOfFuel {A}.

(** Computations over the world that return, throw or run out of fuel. *)
Definition M (A : Type) : Type := World -> Outcome A.

Definition ret {A} (a : A) : M A := fun w => Ok a w.

Definition bind {A B} (m : M A) (f : A -> M B) : M B :=
  fun w =>
    match m w with
    | Ok a w' => f a w'
    | Throw e => Throw e
    | OutOfFuel => OutOfFuel
    end.

Definition throw {A} (e : Error) : M A := fun _ => Throw e.

Declare Scope conv_scope.
Delimit Scope conv_scope with conv.
Notation "x <- m ;; k" := (bind m (fun x => k))
  (at level 100, m at next level, right associativity) : conv_scope.
Notation "m ;;; k" := (bind m (fun _ => k))
  (at level 100, right associativity) : conv_scope.
Local Open Scope conv_scope.

Definition setContext (c : Context) (w : World) : World :=
  {| nodeArrays := nodeArrays w; stringArrays := stringArrays w;
     fileNameOf := fileNameOf w; ctx := c; log := log w |}.

Definition setNodeArrays (a : list (list Node)) (w : World) : World :=
  {| nodeArrays := a; stringArrays := stringArrays w;
     fileNameOf := fileNameOf w; ctx := ctx w; log := log w |}.

Definition setStringArrays (a : list (list string)) (w : World) : World :=
  {| nodeArrays := nodeArrays w; stringArrays := a;
     fileNameOf := fileNameOf w; ctx := ctx w; log := log w |}.

Definition setFileNameOf (f : gmap Node string) (w : World) : World :=
  {| nodeArrays := nodeArrays w; stringArrays := stringArrays w;
     fileNameOf := f; ctx := ctx w; log := log w |}.

(** The world with the events [es] recorded after those already there. *)
Definition logged (es : list Event) (w : World) : World :=
  {| nodeArrays := nodeArrays w; stringArrays := stringArrays w;
     fileNameOf := fileNameOf w; ctx := ctx w; log := log w ++ es |}.

Definition emit (e : Event) : M unit := fun w => Ok tt (logged [e] w).

Definition getContext : M Context := fun w => Ok (ctx w) w.

(** [context.visitStack = l] *)
Definition setVisitStack (l : Loc) : M unit :=
  fun w =>
    let c := ctx w in
    Ok tt (setContext {| fileNames := fileNames c; visitStack := l;
                         project := project c; program := program c |} w).

(** Reading the array at [l]; a reference to nothing is a TypeError. *)
Definition readNodeArray (l : Loc) : M (list Node) :=
  fun w =>
    match nodeArrays w !! l with
    | Some a => Ok a w
    | None => Throw (TypeError "not an array")
    end.

(** [a.slice()] : a new array with the elements of the array at [l]. *)
Definition slice (l : Loc) : M Loc :=
  a <- readNodeArray l ;;
  fun w => Ok (length (nodeArrays w)) (setNodeArrays (nodeArrays w ++ [a]) w).

(** [a.push(node)] on the array at [l], in place. *)
Definition push (l : Loc) (node : Node) : M unit :=
  a <- readNodeArray l ;;
  fun w => Ok tt (setNodeArrays (<[l := a ++ [node]]> (nodeArrays w)) w).

(** [a.indexOf(x)] on an array of objects. *)
Fixpoint arrayIndexOf (x : nat) (a : list nat) : Z :=
  match a with
  | [] => -1
  | y :: a' =>
      if decide (x = y) then 0
      else let i := arrayIndexOf x a' in if i =? -1 then -1 else i + 1
  end.

Definition readStringArray (l : Loc) : M (list string) :=
  fun w =>
    match stringArrays w !! l with
    | Some a => Ok a w
    | None => Throw (TypeError "not an array")
    end.

(** [a[i] = v] on the array of strings at [l], for [i] within the array. *)
Definition writeString (l : Loc) (i : nat) (v : string) : M unit :=
  a <- readStringArray l ;;
  fun w => Ok tt (setStringArrays (<[l := <[i := v]> a]> (stringArrays w)) w).

(** [l.forEach(f)] *)
Fixpoint forEach {A} (f : A -> M unit) (l : list A) : M unit :=
  match l with
  | [] => ret tt
  | x :: l' => f x ;;; forEach f l'
  end.

(** [this.trigger(event, context, reflection?)] : the firing is recorded,
    a reflection by its identifier; the subscribers are outside the
    converter. *)
Definition trigger (event : string) (reflection : option nat) : M unit :=
  emit (EvTrigger event reflection).

Definition EVENT_BEGIN : string := "begin".
Definition EVENT_END : string := "end".
Definition EVENT_RESOLVE_BEGIN : string := "resolveBegin".
Definition EVENT_RESOLVE : string := "resolveReflection".
Definition EVENT_RESOLVE_END : string := "resolveEnd".

(** ** The registry of converters *)

(** [initialize()] sets the three structures to empty. *)
Definition initialize : Converter :=
  {| nodeConverters := ∅; typeNodeConverters := []; typeTypeConverters := [] |}.

(** [Array.prototype.sort(compareFn)]: the elements in an order that
    [compareFn] agrees with.  What the language leaves open is the order
    of elements that compare equal, which [ties] decides: [x], which
    stood before the sorted elements of [l] in the array, goes before the
    first of them that [compareFn] puts after it, or makes equal to it
    when [ties] leaves [x] before that one. *)
Fixpoint sortInsert {A} (ties : A -> A -> bool) (compareFn : A -> A -> Z)
    (x : A) (l : list A) : list A :=
  match l with
  | [] => [x]
  | y :: l' =>
      let order := compareFn x y in
      if (order <? 0) || (order =? 0) && ties x y then x :: y :: l'
      else y :: sortInsert ties compareFn x l'
  end.

Definition sort {A} (ties : list A -> A -> A -> bool) (compareFn : A -> A -> Z)
    (l : list A) : list A :=
  foldr (sortInsert (ties l) compareFn) [] l.

(** [p || 0] for an optional number. *)
Definition orZero (p : option Z) : Z :=
  match p with
  | Some v => v
  | None => 0
  end.

Section WithHost.
Variable host : Host.

(** [(a, b) => (b.priority || 0) - (a.priority || 0)] *)
Definition byPriority (a b : ComponentRef) : Z :=
  orZero (priority (typeComponent host b)) - orZero (priority (typeComponent host a)).

Definition addNodeConverter (converter : ComponentRef) (cv : Converter) : Converter :=
  {| nodeConverters :=
       foldl (fun m supports => <[supports := converter]> m)
             (nodeConverters cv) (supports (nodeComponent host converter));
     typeNodeConverters := typeNodeConverters cv;
     typeTypeConverters := typeTypeConverters cv |}.

Definition addTypeConverter (converter : ComponentRef) (cv : Converter) : Converter :=
  let component := typeComponent host converter in
  {| nodeConverters := nodeConverters cv;
     typeNodeConverters :=
       match nodeRole component with
       | Some _ => sort (sortTies host) byPriority (typeNodeConverters cv ++ [converter])
       | None => typeNodeConverters cv
       end;
     typeTypeConverters :=
       match typeRole component with
       | Some _ => sort (sortTies host) byPriority (typeTypeConverters cv ++ [converter])
       | None => typeTypeConverters cv
       end |}.

Definition removeNodeConverter (converter : ComponentRef) (cv : Converter) : Converter :=
  {| nodeConverters := filter (fun kv => kv.2 ≠ converter) (nodeConverters cv);
     typeNodeConverters := typeNodeConverters cv;
     typeTypeConverters := typeTypeConverters cv |}.

(** [const i = a.indexOf(x); if (i !== -1) { a.splice(i, 1); }] *)
Definition spliceOut (x : ComponentRef) (a : list ComponentRef) : list ComponentRef :=
  let i := arrayIndexOf x a in
  if i =? -1 then a else delete (Z.to_nat i) a.

Definition removeTypeConverter (converter : ComponentRef) (cv : Converter) : Converter :=
  {| nodeConverters := nodeConverters cv;
     typeNodeConverters := spliceOut converter (typeNodeConverters cv);
     typeTypeConverters := spliceOut converter (typeTypeConverters cv) |}.

Definition removeAllComponents (cv : Converter) : Converter := initialize.

(** ** Node traversal *)

Definition doubleQuote : string := String (ascii_of_nat 34) EmptyString.

(** The body of [if (result && comment != null &&
    comment.indexOf('@notSupportedIn') != -1) { ... }]. *)
Definition applyNotSupportedIn (comment : string) (result : Reflection) : M Reflection :=
  let parsed := parseComment host (TagRegex.replace comment) in
  let tag := TagRegex.exec comment in
  let parsed :=
    match tags parsed with
    | Some _ => parsed
    | None => setTags [] parsed
    end in
  match tag with
  | None => throw (TypeError "Cannot read property '1' of null")
  | Some tag1 =>
      let tagValue :=
        match notSupportedFeaturesConfig host tag1 with
        | Some tagValueInfo =>
            "<a href=" +:+ doubleQuote +:+ link tagValueInfo +:+ doubleQuote
              +:+ ">" +:+ name tagValueInfo +:+ "</a>"
        | None => tag1
        end in
      let newTag :=
        {| tagName := "not supported in"; paramName := ""; tagText := tagValue |} in
      let withTag := setTags (default [] (tags parsed) ++ [newTag]) parsed in
      ret (setNotSupportedIn (TagRegex.split tag1) (setComment withTag result))
  end.

(** The two [forEach] loops that override the kind of a declaration. *)
Definition overrideKind (result : Reflection) : Reflection :=
  if isDeclarationReflection result then
    let result1 :=
      match extendedTypes result with
      | Some types =>
          foldl (fun r type =>
                   if String.eqb (JsString.toLowerCase (toString type)) "component"
                   then setKind CoveoComponent r else r)
                result types
      | None => result
      end in
    match implementedTypes result1 with
    | Some impls =>
        foldl (fun r impl =>
                 if 0 <=? JsString.indexOf "icomponentbindings"
                                           (JsString.toLowerCase (toString impl))
                 then setKind CoveoComponent r else r)
              result1 impls
    | None => result1
    end
  else result.

(** What [convertNode] does after the visit stack is restored. *)
Definition postProcess (node : Node) (result : option Reflection) : M (option Reflection) :=
  let comment := getRawComment host node in
  match result with
  | None => ret None
  | Some r =>
      r1 <- (match comment with
             | Some c =>
                 if negb (JsString.indexOf "@notSupportedIn" c =? -1)
                 then applyNotSupportedIn c r else ret r
             | None => ret r
             end) ;;
      let r2 :=
        match comment with
        | Some c =>
            if negb (JsString.indexOf "@componentOptions" c =? -1)
            then setFlagCoveoComponentOptions true r1 else r1
        | None => r1
        end in
      ret (Some (overrideKind r2))
  end.

(** [project.reflections[id] = ...], the keys staying in ascending order. *)
Fixpoint registerIn (id : nat) (p : list nat) : list nat :=
  match p with
  | [] => [id]
  | i :: p' =>
      if decide (id = i) then i :: p'
      else if decide (id < i)%nat then id :: i :: p'
      else i :: registerIn id p'
  end.

Definition registerReflection (r : Reflection) : M unit :=
  fun w =>
    let c := ctx w in
    Ok tt (setContext {| fileNames := fileNames c; visitStack := visitStack c;
                         project := registerIn (reflId r) (project c);
                         program := program c |} w).

(** Running the body of a node converter, [owner] being
    [this.owner.convertNode(context, _)]. *)
Fixpoint runPlugin (owner : Node -> M (option Reflection)) (p : Plugin) : M (option Reflection) :=
  match p with
  | Return result => ret result
  | Raise message => throw (PluginError message)
  | ConvertChild child k => r <- owner child ;; runPlugin owner (k r)
  | RegisterReflection r k => registerReflection r ;;; runPlugin owner k
  end.

(** [if (node.kind in this.nodeConverters) { result =
    this.nodeConverters[node.kind].convert(context, node); }], [owner]
    being the converter's own [convertNode]. *)
Definition callNodeConverter (owner : Node -> M (option Reflection)) (cv : Converter)
           (node : Node) : M (option Reflection) :=
  match nodeConverters cv !! nodeKind host node with
  | Some converter =>
      emit (EvConvert converter node) ;;;
      runPlugin owner (convert_ (nodeComponent host converter) node)
  | None => ret None
  end.

(** [convertNode(context, node)]; [fuel] bounds the depth of the calls of
    [convertNode] from inside node converters. *)
Fixpoint convertNode (fuel : nat) (cv : Converter) (node : Node) : M (option Reflection) :=
  match fuel with
  | O => fun _ => OutOfFuel
  | S fuel' =>
      c <- getContext ;;
      stack <- readNodeArray (visitStack c) ;;
      if negb (arrayIndexOf node stack =? -1) then ret None
      else
        let oldVisitStack := visitStack c in
        copy <- slice oldVisitStack ;;
        setVisitStack copy ;;;
        c' <- getContext ;;
        push (visitStack c') node ;;;
        result <- callNodeConverter (convertNode fuel' cv) cv node ;;
        setVisitStack oldVisitStack ;;;
        postProcess node result
  end.

(** ** Type resolution *)

(** [for (let converter of this.typeNodeConverters) { if
    (converter.supportsNode(...)) { return converter.convertNode(...); } }]:
    [Some result] when the loop returned, [None] when it ran to its end. *)
Fixpoint scanNodeConverters (converters : list ComponentRef) (node : Node)
         (type : option TsType) : M (option (option ModelType)) :=
  match converters with
  | [] => ret None
  | converter :: rest =>
      match nodeRole (typeComponent host converter) with
      | None => throw (TypeError "converter.supportsNode is not a function")
      | Some (supportsNode, convertNode_) =>
          emit (EvSupportsNode converter) ;;;
          if supportsNode node type then
            emit (EvConvertNode converter) ;;;
            ret (Some (convertNode_ node type))
          else scanNodeConverters rest node type
      end
  end.

Fixpoint scanTypeConverters (converters : list ComponentRef) (type : TsType)
  : M (option (option ModelType)) :=
  match converters with
  | [] => ret None
  | converter :: rest =>
      match typeRole (typeComponent host converter) with
      | None => throw (TypeError "converter.supportsType is not a function")
      | Some (supportsType, convertType_) =>
          emit (EvSupportsType converter) ;;;
          if supportsType type then
            emit (EvConvertType converter) ;;;
            ret (Some (convertType_ type))
          else scanTypeConverters rest type
      end
  end.

(** [convertType(context, node?, type?)]; [None] as a result is
    [undefined]. *)
Definition convertType (cv : Converter) (node : option Node) (type : option TsType)
  : M (option ModelType) :=
  typeAndHit <-
    (match node with
     | Some n =>
         type' <- (match type with
                   | Some t => ret (Some t)
                   | None =>
                       emit (EvGetTypeAtLocation n) ;;;
                       ret (getTypeAtLocation host n)
                   end) ;;
         hit <- scanNodeConverters (typeNodeConverters cv) n type' ;;
         ret (type', hit)
     | None => ret (type, None)
     end) ;;
  match typeAndHit with
  | (_, Some result) => ret result
  | (type', None) =>
      match type' with
      | Some t =>
          hit <- scanTypeConverters (typeTypeConverters cv) t ;;
          ret (default None hit)
      | None => ret None
      end
  end.

(** ** The diagnostic pipeline *)

(** The path fix-up of a source file in [compile]. *)
Definition fixFileName (sourceFile : Node) : M unit :=
  fun w =>
    match fileNameOf w !! sourceFile with
    | None => Throw (TypeError "Path must be a string")
    | Some fileName =>
        if isAbsolute host fileName then Ok tt w
        else
          let fixed :=
            normalizePath host
              (normalizeSlashes host (pathJoin host (currentDirectory host) fileName)) in
          Ok tt (setFileNameOf (<[sourceFile := fixed]> (fileNameOf w)) w)
    end.

(** [program.getSourceFiles().forEach(...)] of [compile]. *)
Definition convertSourceFiles (fuel : nat) (cv : Converter) : M unit :=
  c <- getContext ;;
  forEach (fun sourceFile =>
             fixFileName sourceFile ;;;
             convertNode fuel cv sourceFile ;;;
             ret tt)
          (getSourceFiles (program c)).

Definition diagnosticsOf (p : Program) (phase : Phase) : list Diagnostic :=
  match phase with
  | OptionsPhase => getOptionsDiagnostics p
  | SyntacticPhase => getSyntacticDiagnostics p
  | GlobalPhase => getGlobalDiagnostics p
  | SemanticPhase => getSemanticDiagnostics p
  end.

(** [program.getXDiagnostics()] *)
Definition getDiagnostics (phase : Phase) : M (list Diagnostic) :=
  c <- getContext ;;
  emit (EvDiagnostics phase) ;;;
  ret (diagnosticsOf (program c) phase).

(** [if (diagnostics.length)] *)
Definition hasLength {A} (l : list A) : bool := negb (Z.of_nat (length l) =? 0).

Definition compile (fuel : nat) (cv : Converter) : M (list Diagnostic) :=
  convertSourceFiles fuel cv ;;;
  diagnostics <- getDiagnostics OptionsPhase ;;
  if hasLength diagnostics then ret diagnostics else
  diagnostics <- getDiagnostics SyntacticPhase ;;
  if hasLength diagnostics then ret diagnostics else
  diagnostics <- getDiagnostics GlobalPhase ;;
  if hasLength diagnostics then ret diagnostics else
  diagnostics <- getDiagnostics SemanticPhase ;;
  if hasLength diagnostics then ret diagnostics else
  ret [].

(** ** The resolve pass and the lifecycle *)

Definition resolve : M (list nat) :=
  trigger EVENT_RESOLVE_BEGIN None ;;;
  c <- getContext ;;
  forEach (fun id => trigger EVENT_RESOLVE (Some id)) (project c) ;;;
  trigger EVENT_RESOLVE_END None ;;;
  ret (project c).

(** [ConverterResult]; the project reflection is given by the
    identifiers of its reflections. *)
Record ConverterResult := {
  errors : list Diagnostic;
  projectReflection : list nat
}.

(** [for (let i = 0, c = fileNames.length; i < c; i++) { fileNames[i] =
    normalizePath(_ts.normalizeSlashes(fileNames[i])); }] from index [i]
    with [remaining = c - i] rounds to go. *)
Fixpoint normalizeFrom (fileNames : Loc) (i remaining : nat) : M unit :=
  match remaining with
  | O => ret tt
  | S remaining' =>
      a <- readStringArray fileNames ;;
      match a !! i with
      | Some fileName =>
          writeString fileNames i (normalizePath host (normalizeSlashes host fileName)) ;;;
          normalizeFrom fileNames (S i) remaining'
      | None => throw (TypeError "path is not a string")
      end
  end.

Definition normalizeFileNames (fileNames : Loc) : M unit :=
  a <- readStringArray fileNames ;;
  normalizeFrom fileNames 0 (length a).

(** Modelled from the spec: the constructor of [Context] (context.ts is
    not among the sources).  The new context holds the file names it is
    given, by reference, the program, an empty visit stack of its own and
    an empty project. *)
Definition newContext (fileNames : Loc) (program : Program) : M unit :=
  fun w =>
    Ok tt (setContext {| fileNames := fileNames;
                         visitStack := length (nodeArrays w);
                         project := [];
                         program := program |}
                      (setNodeArrays (nodeArrays w ++ [[]]) w)).

(** [convert(fileNames)] *)
Definition convert (fuel : nat) (cv : Converter) (fileNames : Loc) : M ConverterResult :=
  normalizeFileNames fileNames ;;;
  files <- readStringArray fileNames ;;
  emit (EvCreateProgram files) ;;;
  newContext fileNames (createProgram host files) ;;;
  trigger EVENT_BEGIN None ;;;
  errors <- compile fuel cv ;;
  project <- resolve ;;
  trigger EVENT_END None ;;;
  ret {| errors := errors; projectReflection := project |}.

End WithHost.

(** ** Registration sequences *)

Inductive RegistryOp :=
| Register (converter : ComponentRef)
| Unregister (converter : ComponentRef).

Definition applyOp (host : Host) (cv : Converter) (op : RegistryOp) : Converter :=
  match op with
  | Register c => addTypeConverter host c cv
  | Unregister c => removeTypeConverter c cv
  end.

(** The converter after the operations [ops], starting from [initialize]. *)
Definition applyOps (host : Host) (ops : list RegistryOp) : Converter :=
  foldl (applyOp host) initialize ops.

Definition hasNodeRole (host : Host) (c : ComponentRef) : bool :=
  bool_decide (is_Some (nodeRole (typeComponent host c))).

Definition hasTypeRole (host : Host) (c : ComponentRef) : bool :=
  bool_decide (is_Some (typeRole (typeComponent host c))).

(** The list without the first occurrence of [c]. *)
Fixpoint withoutFirst (c : ComponentRef) (l : list ComponentRef) : list ComponentRef :=
  match l with
  | [] => []
  | x :: later => if decide (x = c) then later else x :: withoutFirst c later
  end.

(** The converters registered in a role and not unregistered since, in
    the order of their registration; unregistering takes the earliest
    registration of the converter back. *)
Definition registrationOrder (inRole : ComponentRef -> bool) (ops : list RegistryOp)
  : list ComponentRef :=
  foldl (fun registered op =>
           match op with
           | Register c => if inRole c then registered ++ [c] else registered
           | Unregister c => withoutFirst c registered
           end) [] ops.

(** In [order], [x] is met before [y] is. *)
Fixpoint precedes (order : list ComponentRef) (x y : ComponentRef) : bool :=
  match order with
  | [] => false
  | z :: later =>
      if decide (z = x) then true
      else if decide (z = y) then false
      else precedes later x y
  end.

(** The priority a converter is sorted by. *)
Definition priorityOf (host : Host) (c : ComponentRef) : Z :=
  orZero (priority (typeComponent host c)).

(** [a] may stand before [b] in a list sorted by descending priority. *)
Definition descending (host : Host) (a b : ComponentRef) : Prop :=
  priorityOf host b <= priorityOf host a.

(** The converters of priority [p], in the order of the list. *)
Definition withPriority (host : Host) (p : Z) (l : list ComponentRef) : list ComponentRef :=
  filter (fun c => priorityOf host c = p) l.

(** The engine's sort is stable: elements that compare equal are left in
    the order they had. *)
Definition stableSort (host : Host) : Prop :=
  forall array x y, sortTies host array x y = true.

(** One list of the registry against the registrations of its role, when
    the sort is stable. *)
Definition listInvariant (host : Host) (l registered : list ComponentRef) : Prop :=
  StronglySorted (descending host) l /\
  forall p, withPriority host p l = withPriority host p registered.


(** The world in which [convertNode] runs the node converter of [node],
    when the caller's visit stack holds [stack]: the context's stack is a
    new array, [stack] followed by [node]. *)
Definition enterNode (node : Node) (stack : list Node) (w : World) : World :=
  {| nodeArrays := nodeArrays w ++ [stack ++ [node]];
     stringArrays := stringArrays w;
     fileNameOf := fileNameOf w;
     ctx := {| fileNames := fileNames (ctx w);
               visitStack := length (nodeArrays w);
               project := project (ctx w);
               program := program (ctx w) |};
     log := log w |}.

(** The world with [context.visitStack = l]. *)
Definition withVisitStack (l : Loc) (w : World) : World :=
  setContext {| fileNames := fileNames (ctx w); visitStack := l;
                project := project (ctx w); program := program (ctx w) |} w.

(** The events of the traversal: calls of node converters. *)
Definition isConvertEvent (e : Event) : Prop :=
  match e with
  | EvConvert _ _ => True
  | _ => False
  end.

(** What a traversal step may change between [w] and [w']: it may add
    arrays of nodes, reflections to the project and calls of node
    converters to the log, and fix the file names of source files. *)
Record footprint (w w' : World) : Prop := {
  fp_visitStack : visitStack (ctx w') = visitStack (ctx w);
  fp_fileNames : fileNames (ctx w') = fileNames (ctx w);
  fp_program : program (ctx w') = program (ctx w);
  fp_nodeArrays :
    forall (l : Loc) (a : list Node),
      nodeArrays w !! l = Some a -> nodeArrays w' !! l = Some a;
  fp_stringArrays : stringArrays w' = stringArrays w;
  fp_log : exists es, log w' = log w ++ es /\ Forall isConvertEvent es
}.

(** ** Notions used in the statements *)

(** [type || context.getTypeAtLocation(node)], and the call it makes. *)
Definition typeAt (host : Host) (node : Node) (type : option TsType) : option TsType :=
  match type with
  | Some t => Some t
  | None => getTypeAtLocation host node
  end.

Definition typeLookup (node : Node) (type : option TsType) : list Event :=
  match type with
  | Some _ => []
  | None => [EvGetTypeAtLocation node]
  end.

(** The node-driven converter [c] is asked and answers [false]. *)
Definition rejectsNode (host : Host) (node : Node) (type : option TsType)
           (c : ComponentRef) : Prop :=
  exists supportsNode convertNode_,
    nodeRole (typeComponent host c) = Some (supportsNode, convertNode_) /\
    supportsNode node type = false.

(** The node-driven converter [c] answers [true] and converts to [result]. *)
Definition acceptsNode (host : Host) (node : Node) (type : option TsType)
           (c : ComponentRef) (result : option ModelType) : Prop :=
  exists supportsNode convertNode_,
    nodeRole (typeComponent host c) = Some (supportsNode, convertNode_) /\
    supportsNode node type = true /\ convertNode_ node type = result.

Definition rejectsType (host : Host) (type : TsType) (c : ComponentRef) : Prop :=
  exists supportsType convertType_,
    typeRole (typeComponent host c) = Some (supportsType, convertType_) /\
    supportsType type = false.

Definition acceptsType (host : Host) (type : TsType) (c : ComponentRef)
           (result : option ModelType) : Prop :=
  exists supportsType convertType_,
    typeRole (typeComponent host c) = Some (supportsType, convertType_) /\
    supportsType type = true /\ convertType_ type = result.

Definition allPhases : list Phase :=
  [OptionsPhase; SyntacticPhase; GlobalPhase; SemanticPhase].

(** The diagnostic pipeline as the specification words it: the phases are
    asked in order; the first that reports anything ends the pipeline with
    its list; if none does the result is empty.  The phases asked come
    first, the result second. *)
Fixpoint pipeline (p : Program) (phases : list Phase) : list Phase * list Diagnostic :=
  match phases with
  | [] => ([], [])
  | phase :: later =>
      match diagnosticsOf p phase with
      | [] => (phase :: (pipeline p later).1, (pipeline p later).2)
      | reported => ([phase], reported)
      end
  end.

(** The path preparation of [convert]. *)
Definition normalized (host : Host) (fileName : string) : string :=
  normalizePath host (normalizeSlashes host fileName).

(** The firing of the resolve event for a reflection of the project. *)
Definition resolveEvent (id : nat) : Event :=
  EvTrigger EVENT_RESOLVE (Some id).

(** The node converter body [p] asks [convertNode] for nodes below [N]
    only, whatever it is answered. *)
Inductive asksBelow (N : nat) : Plugin -> Prop :=
| asksBelow_Return result : asksBelow N (Return result)
| asksBelow_Raise message : asksBelow N (Raise message)
| asksBelow_ConvertChild child k :
    (child < N)%nat -> (forall r, asksBelow N (k r)) -> asksBelow N (ConvertChild child k)
| asksBelow_RegisterReflection r k :
    asksBelow N k -> asksBelow N (RegisterReflection r k).

(** The computation came to an end: it returned or threw. *)
Definition terminated {A} (o : Outcome A) : Prop :=
  match o with
  | OutOfFuel => False
  | _ => True
  end.

(** The traversal of [compile] as the specification has it: the source
    files are taken in the order of the program; each has its file name
    made absolute, then is converted with [convertNode].  The worlds are
    those before and after the traversal. *)
Inductive traversal (host : Host) (fuel : nat) (cv : Converter)
  : list Node -> World -> World -> Prop :=
| traversal_nil w : traversal host fuel cv [] w w
| traversal_cons sourceFile later w afterFix result afterConvert w' :
    fixFileName host sourceFile w = Ok tt afterFix ->
    convertNode host fuel cv sourceFile afterFix = Ok result afterConvert ->
    traversal host fuel cv later afterConvert w' ->
    traversal host fuel cv (sourceFile :: later) w w'.

(** The calls of node converters that the traversal makes on the source
    files themselves: one for each source file whose kind has a converter,
    in the order of the program. *)
Definition sourceFileCalls (host : Host) (cv : Converter) (sourceFiles : list Node)
  : list Event :=
  omap (fun sourceFile =>
          match nodeConverters cv !! nodeKind host sourceFile with
          | Some c => Some (EvConvert c sourceFile)
          | None => None
          end) sourceFiles.

(** The world in which [convert] starts [compile], the caller's array at
    [l] holding [a] when [convert] is called. *)
Definition beginWorld (host : Host) (l : Loc) (a : list string) (w : World) : World :=
  let files := map (normalized host) a in
  {| nodeArrays := nodeArrays w ++ [[]];
     stringArrays := <[l := files]> (stringArrays w);
     fileNameOf := fileNameOf w;
     ctx := {| fileNames := l;
               visitStack := length (nodeArrays w);
               project := [];
               program := createProgram host files |};
     log := log w ++ [EvCreateProgram files; EvTrigger EVENT_BEGIN None] |}.

(** The firings that end [convert]: the resolve pass over [entries], then
    the end of the conversion. *)
Definition closingEvents (entries : list nat) : list Event :=
  [EvTrigger EVENT_RESOLVE_BEGIN None] ++ map resolveEvent entries
    ++ [EvTrigger EVENT_RESOLVE_END None; EvTrigger EVENT_END None].

(** ** A small project

    One source file with a class that refers to itself, a node of a kind
    nobody converts, and a declaration whose comment has the marker
    without a feature list. *)
Module Demo.

(** Backslashes become slashes. *)
Fixpoint slashes (s : string) : string :=
  match s with
  | EmptyString => EmptyString
  | String c s' =>
      String (if decide (c = ascii_of_nat 92) then "/"%char else c) (slashes s')
  end.

Definition sourceFile : Node := 0%nat.
Definition classNode : Node := 1%nat.
Definition unsupportedNode : Node := 2%nat.
Definition brokenNode : Node := 3%nat.

Definition kindOf (n : Node) : Z :=
  match n with
  | O => 265
  | 1%nat => 229
  | 2%nat => 17
  | _ => 228
  end.

Definition commentOf (n : Node) : option string :=
  match n with
  | 1%nat => Some "A component. @notSupportedIn IE, Firefox @componentOptions"
  | 3%nat => Some "@notSupportedIn"
  | _ => None
  end.

Definition plainReflection (id : nat) : Reflection :=
  {| reflId := id; isDeclarationReflection := false; kind := OtherKind 1;
     comment := None; notSupportedIn := None; flagCoveoComponentOptions := false;
     extendedTypes := None; implementedTypes := None |}.

Definition classReflection : Reflection :=
  {| reflId := 1; isDeclarationReflection := true; kind := OtherKind 128;
     comment := None; notSupportedIn := None; flagCoveoComponentOptions := false;
     extendedTypes := Some [{| typeId := 7; toString := "Component" |}];
     implementedTypes := Some [{| typeId := 8; toString := "IDisposable" |}] |}.

(** Three node converters: for source files, converting the class and the
    unsupported node; for classes, storing the reflection and converting
    the class itself again, as a self-reference does; for the last kind. *)
Definition nodeComponentOf (c : ComponentRef) : ConverterNodeComponent :=
  match c with
  | O =>
      {| supports := [265];
         convert_ := fun _ =>
           ConvertChild classNode (fun _ =>
           ConvertChild unsupportedNode (fun _ =>
           Return (Some (plainReflection 0)))) |}
  | 1%nat =>
      {| supports := [229];
         convert_ := fun n =>
           RegisterReflection classReflection
             (ConvertChild n (fun _ => Return (Some classReflection))) |}
  | _ =>
      {| supports := [228];
         convert_ := fun _ => Return (Some (plainReflection 3)) |}
  end.

(** Type converters 10 to 13: 10 and 12 are node-driven, 11 and 13
    type-driven, 12 also type-driven; 12 has priority 5, 13 priority 0,
    the others none. *)
Definition typeComponentOf (c : ComponentRef) : ConverterTypeComponent :=
  match c with
  | 10%nat =>
      {| priority := None;
         nodeRole := Some (fun n _ => bool_decide (n = classNode),
                           fun n _ => Some {| typeId := n; toString := "class" |});
         typeRole := None |}
  | 11%nat =>
      {| priority := None;
         nodeRole := None;
         typeRole := Some (fun _ => true,
                           fun t => Some {| typeId := t; toString := "any" |}) |}
  | 12%nat =>
      {| priority := Some 5;
         nodeRole := Some (fun n _ => bool_decide (n = sourceFile), fun _ _ => None);
         typeRole := Some (fun t => bool_decide (t = 2%nat),
                           fun t => Some {| typeId := t; toString := "two" |}) |}
  | 13%nat =>
      {| priority := Some 0;
         nodeRole := None;
         typeRole := Some (fun t => bool_decide (t = 3%nat),
                           fun t => Some {| typeId := t; toString := "three" |}) |}
  | _ => {| priority := None; nodeRole := None; typeRole := None |}
  end.

Definition semanticError : Diagnostic :=
  {| diagCode := 2304; messageText := "Cannot find name 'Componnt'." |}.

Definition programOf (files : list string) : Program :=
  {| getSourceFiles := [sourceFile];
     getOptionsDiagnostics := [];
     getSyntacticDiagnostics := [];
     getGlobalDiagnostics := [];
     getSemanticDiagnostics := [semanticError] |}.

Definition host : Host :=
  {| normalizePath := slashes;
     normalizeSlashes := slashes;
     isAbsolute := JsString.startsWith "/";
     pathJoin := fun a b => a +:+ "/" +:+ b;
     currentDirectory := "/work";
     createProgram := programOf;
     getTypeAtLocation := fun n => if decide (n = unsupportedNode) then None else Some n;
     nodeKind := kindOf;
     getRawComment := commentOf;
     parseComment := fun s => {| shortText := s; text := ""; tags := None |};
     notSupportedFeaturesConfig := fun _ => None;
     nodeComponent := nodeComponentOf;
     typeComponent := typeComponentOf;
     sortTies := fun _ _ _ => true |}.

(** Type-driven converters without a priority. *)
Definition plainTypeComponent (c : ComponentRef) : ConverterTypeComponent :=
  {| priority := None;
     nodeRole := None;
     typeRole := Some (fun _ => false, fun _ => None) |}.

(** What V8 before version 7.0 makes of an array whose elements all
    compare equal.  Up to ten elements are sorted by insertion and stay as
    they are.  Of more, its quicksort takes the first, the last and the
    middle element, at index [length >> 1], to choose a pivot, which
    leaves the middle element first, the first one second and the second
    one in the middle; nothing else moves.  (Beyond a thousand elements
    V8 picks the third element otherwise; such arrays are not met here.) *)
Definition v8Order (array : list ComponentRef) : list ComponentRef :=
  if (length array <=? 10)%nat then array
  else
    let middle := (length array / 2)%nat in
    match array with
    | first :: second :: _ =>
        default first (array !! middle) :: first
          :: take (middle - 2) (drop 2 array) ++ second :: drop (middle + 1) array
    | _ => array
    end.

(** The same collaborators with type-driven converters that all have the
    same priority, on that engine. *)
Definition v8Host : Host :=
  {| normalizePath := normalizePath host;
     normalizeSlashes := normalizeSlashes host;
     isAbsolute := isAbsolute host;
     pathJoin := pathJoin host;
     currentDirectory := currentDirectory host;
     createProgram := createProgram host;
     getTypeAtLocation := getTypeAtLocation host;
     nodeKind := nodeKind host;
     getRawComment := getRawComment host;
     parseComment := parseComment host;
     notSupportedFeaturesConfig := notSupportedFeaturesConfig host;
     nodeComponent := nodeComponent host;
     typeComponent := plainTypeComponent;
     sortTies := fun array => precedes (v8Order array) |}.

(** Eleven converters, registered one after the other. *)
Definition elevenRegistrations : list RegistryOp := map Register (seq 0 11).

Definition registrations : list RegistryOp :=
  [Register 10%nat; Register 11%nat; Register 12%nat; Register 13%nat].

Definition converter : Converter :=
  addNodeConverter host 2%nat
    (addNodeConverter host 1%nat
       (addNodeConverter host 0%nat (applyOps host registrations))).

Definition emptyContext : Context :=
  {| fileNames := 0%nat; visitStack := 0%nat; project := []; program := programOf [] |}.

(** Before [convert]: the caller's array of paths is at address 0. *)
Definition world : World :=
  {| nodeArrays := [[]];
     stringArrays := [["src\a.ts"; "src/a.ts"]];
     fileNameOf := {[ sourceFile := "src/a.ts" ]};
     ctx := emptyContext;
     log := [] |}.

(** In the middle of a traversal: the class is being converted. *)
Definition worldInClass : World :=
  {| nodeArrays := [[sourceFile; classNode]];
     stringArrays := [];
     fileNameOf := ∅;
     ctx := emptyContext;
     log := [] |}.

End Demo.

(** The two strings are equal up to the case of their letters. *)
Definition equalsIgnoreCase (a b : string) : Prop :=
  JsString.toLowerCase a = JsString.toLowerCase b.

(** [s] has a part that equals [sub] up to the case of its letters. *)
Definition containsIgnoreCase (sub s : string) : Prop :=
  exists before part after,
    s = before +:+ part +:+ after /\ equalsIgnoreCase part sub.

(** ** Notions used in further statements *)

(** [s] has [sub] as a part. *)
Definition contains (sub s : string) : Prop :=
  exists before after, s = before +:+ sub +:+ after.

Fixpoint allWordChars (s : string) : bool :=
  match s with
  | EmptyString => true
  | String c s' => JsString.isWordChar c && allWordChars s'
  end.

(** A feature name: a non-empty run of word characters. *)
Definition isFeatureName (s : string) : Prop :=
  s <> EmptyString /\ allWordChars s = true.

(** The names separated by a comma and a space. *)
Fixpoint joinFeatures (names : list string) : string :=
  match names with
  | [] => EmptyString
  | [name] => name
  | name :: later => name +:+ ", " +:+ joinFeatures later
  end.

(** The tag that [convertNode] adds for the feature list [features]. *)
Definition notSupportedInTag (host : Host) (features : string) : CommentTag :=
  {| tagName := "not supported in";
     paramName := "";
     tagText :=
       match notSupportedFeaturesConfig host features with
       | Some info =>
           "<a href=" +:+ doubleQuote +:+ link info +:+ doubleQuote
             +:+ ">" +:+ name info +:+ "</a>"
       | None => features
       end |}.

(** The two reflections differ in their kind at most. *)
Definition sameButKind (r r' : Reflection) : Prop :=
  reflId r' = reflId r /\
  isDeclarationReflection r' = isDeclarationReflection r /\
  comment r' = comment r /\
  notSupportedIn r' = notSupportedIn r /\
  flagCoveoComponentOptions r' = flagCoveoComponentOptions r /\
  extendedTypes r' = extendedTypes r /\
  implementedTypes r' = implementedTypes r.

(** A type of the list renders as [component], up to the case of the
    letters. *)
Definition extendsComponent (r : Reflection) : Prop :=
  exists types type,
    extendedTypes r = Some types /\ type ∈ types /\
    equalsIgnoreCase (toString type) "component".

(** A type of the list renders with [icomponentbindings] in it, up to the
    case of the letters. *)
Definition implementsBindings (r : Reflection) : Prop :=
  exists impls impl,
    implementedTypes r = Some impls /\ impl ∈ impls /\
    containsIgnoreCase "icomponentbindings" (toString impl).

(** The tests of the two loops of the kind override. *)
Definition rendersComponent (type : ModelType) : bool :=
  String.eqb (JsString.toLowerCase (toString type)) "component".

Definition rendersBindings (impl : ModelType) : bool :=
  0 <=? JsString.indexOf "icomponentbindings" (JsString.toLowerCase (toString impl)).

(** One loop of the kind override over an optional list of types. *)
Definition markAll (test : ModelType -> bool) (types : option (list ModelType))
           (r : Reflection) : Reflection :=
  match types with
  | Some l => foldl (fun r type => if test type then setKind CoveoComponent r else r) r l
  | None => r
  end.

(** The marker of component options stands in the raw comment of the
    node. *)
Definition hasComponentOptions (host : Host) (node : Node) : Prop :=
  exists c, getRawComment host node = Some c /\ contains "@componentOptions" c.

(** The marker of unsupported features stands in the raw comment of the
    node. *)
Definition hasNotSupportedIn (host : Host) (node : Node) : Prop :=
  exists c, getRawComment host node = Some c /\ contains "@notSupportedIn" c.

(** The reflection after the flag of component options is set, if the raw
    comment [c] asks for it. *)
Definition flagged (c : string) (r : Reflection) : Reflection :=
  if negb (JsString.indexOf "@componentOptions" c =? -1)
  then setFlagCoveoComponentOptions true r else r.

(** The comment [convertNode] gives a reflection whose raw comment [c]
    the pattern matches with the feature list [features]. *)
Definition taggedComment (host : Host) (c features : string) : Comment :=
  let parsed := parseComment host (TagRegex.replace c) in
  {| shortText := shortText parsed;
     text := text parsed;
     tags := Some (default [] (tags parsed) ++ [notSupportedInTag host features]) |}.


(** The event is the call of the node converter that is registered for
    the kind of the node it is called on. *)
Definition registeredCall (host : Host) (cv : Converter) (e : Event) : Prop :=
  match e with
  | EvConvert c node => nodeConverters cv !! nodeKind host node = Some c
  | _ => False
  end.

(** Between [w] and [w'] only calls of registered node converters were
    recorded. *)
Definition onlyRegisteredCalls (host : Host) (cv : Converter) (w w' : World) : Prop :=
  exists es, log w' = log w ++ es /\ Forall (registeredCall host cv) es.

(** No array of nodes holds a node twice. *)
Definition stacksDuplicateFree (w : World) : Prop := Forall NoDup (nodeArrays w).

(** The file name [compile] leaves on a source file whose name was
    [fileName]. *)
Definition fixedFileName (host : Host) (fileName : string) : string :=
  if isAbsolute host fileName then fileName
  else normalizePath host
         (normalizeSlashes host (pathJoin host (currentDirectory host) fileName)).
(** * Properties *)

Section Sorting.
Variable host : Host.

Lemma sortInsert_elem ties (x y : ComponentRef) l :
  y ∈ sortInsert ties (byPriority host) x l -> y = x \/ y ∈ l.
Proof.
  induction l as [|z l IH]; simpl.
  - intros ->%list_elem_of_singleton. by left.
  - destruct ((byPriority host x z <? 0) || (byPriority host x z =? 0) && ties x z).
    + intros [->|H]%elem_of_cons; [by left | by right].
    + intros [->|H]%elem_of_cons.
      * right. left.
      * destruct (IH H) as [->|H']; [by left | right; by right].
Qed.

(** Whatever the engine does with ties, inserting keeps the list sorted. *)
Lemma sortInsert_sorted ties x l :
  StronglySorted (descending host) l ->
  StronglySorted (descending host) (sortInsert ties (byPriority host) x l).
Proof.
  induction 1 as [|y l Hl IH Hy]; simpl.
  - repeat constructor.
  - destruct ((byPriority host x y <? 0) || (byPriority host x y =? 0) && ties x y) eqn:E.
    + assert (byPriority host x y <= 0) as E'.
      { apply orb_true_iff in E as [E|[E _]%andb_true_iff]; lia. }
      constructor; [by constructor|].
      assert (descending host x y) as Hxy
        by (unfold descending, byPriority, priorityOf in *; lia).
      constructor; [done|].
      rewrite Forall_forall in Hy |- *. intros z Hz.
      specialize (Hy z Hz). unfold descending in *. lia.
    + assert (0 <= byPriority host x y) as E'.
      { apply orb_false_iff in E as [E _]. lia. }
      constructor; [done|].
      rewrite Forall_forall in Hy |- *. intros z Hz.
      destruct (sortInsert_elem _ _ _ _ Hz) as [->|Hz'].
      * unfold descending, byPriority, priorityOf in *. lia.
      * by apply Hy.
Qed.

Lemma sort_sorted ties l :
  StronglySorted (descending host) (sort ties (byPriority host) l).
Proof.
  unfold sort. generalize (ties l). intros t.
  induction l as [|x l IH]; simpl; [constructor | by apply sortInsert_sorted].
Qed.

Lemma sortInsert_perm ties (x : ComponentRef) l :
  sortInsert ties (byPriority host) x l ≡ₚ x :: l.
Proof.
  induction l as [|y l IH]; simpl; [done|].
  destruct ((byPriority host x y <? 0) || (byPriority host x y =? 0) && ties x y); [done|].
  rewrite IH. apply Permutation_swap.
Qed.

(** Whatever the engine does with ties, the sorted array holds the
    elements it held. *)
Lemma sort_perm ties (l : list ComponentRef) :
  sort ties (byPriority host) l ≡ₚ l.
Proof.
  unfold sort. generalize (ties l). intros t.
  induction l as [|x l IH]; simpl; [done|].
  by rewrite sortInsert_perm, IH.
Qed.

Lemma sortInsert_withPriority ties p x l :
  (forall a b, ties a b = true) ->
  withPriority host p (sortInsert ties (byPriority host) x l)
  = withPriority host p (x :: l).
Proof.
  intros Hties.
  unfold withPriority. induction l as [|y l IH]; simpl; [done|].
  rewrite Hties, andb_true_r.
  destruct ((byPriority host x y <? 0) || (byPriority host x y =? 0)) eqn:E; [done|].
  apply orb_false_iff in E as [E1 E2].
  rewrite !filter_cons in *.
  destruct (decide (priorityOf host x = p)) as [Hx|Hx];
    destruct (decide (priorityOf host y = p)) as [Hy|Hy];
    rewrite ?IH; try done.
  unfold byPriority, priorityOf in *. lia.
Qed.

(** A stable sort keeps the converters of one priority in the order they
    had. *)
Lemma sort_withPriority p l :
  stableSort host ->
  withPriority host p (sort (sortTies host) (byPriority host) l) = withPriority host p l.
Proof.
  intros Hstable. unfold sort.
  assert (forall a b, sortTies host l a b = true) as Hties by (intros; apply Hstable).
  revert Hties. generalize (sortTies host l). intros t Hties.
  induction l as [|x l IH]; simpl; [done|].
  rewrite sortInsert_withPriority by done. unfold withPriority in *.
  rewrite !filter_cons, IH. done.
Qed.

Lemma sorted_after pre (c : ComponentRef) post :
  StronglySorted (descending host) (pre ++ c :: post) -> Forall (descending host c) post.
Proof.
  induction pre as [|x pre IH]; simpl; intros [H1 H2]%StronglySorted_inv; [done|auto].
Qed.

Lemma filter_none (P : ComponentRef -> Prop) `{!forall x, Decision (P x)}
    (l : list ComponentRef) :
  (forall x, x ∈ l -> ~ P x) -> filter P l = [].
Proof.
  induction l as [|y l IH]; intros Hl; [done|].
  rewrite filter_cons, decide_False by (apply Hl; left).
  apply IH. intros x Hx. apply Hl. by right.
Qed.

Lemma filter_all (P : ComponentRef -> Prop) `{!forall x, Decision (P x)}
    (l : list ComponentRef) :
  (forall x, x ∈ l -> P x) -> filter P l = l.
Proof.
  induction l as [|y l IH]; intros Hl; [done|].
  rewrite filter_cons, decide_True by (apply Hl; left).
  f_equal. apply IH. intros x Hx. apply Hl. by right.
Qed.

Lemma filter_later (x : ComponentRef) (s l : list ComponentRef) :
  x ∉ l -> filter (.∈ x :: s) l = filter (.∈ s) l.
Proof.
  induction l as [|y l IH]; [done|]. intros [Hxy Hx]%not_elem_of_cons.
  rewrite !filter_cons, IH by done.
  destruct (decide (y ∈ s)) as [Hy|Hy].
  - rewrite decide_True by by right. done.
  - rewrite decide_False; [done|]. intros [->|?]%elem_of_cons; done.
Qed.

Lemma precedes_later (pre post : list ComponentRef) x y :
  x ∉ pre -> y ∈ pre -> precedes (pre ++ x :: post) x y = false.
Proof.
  induction pre as [|z pre IH]; simpl; [by intros _ ?%elem_of_nil|].
  intros [Hxz Hx]%not_elem_of_cons Hy.
  rewrite decide_False by done.
  destruct (decide (z = y)) as [->|Hzy]; [done|].
  apply elem_of_cons in Hy as [->|Hy]; [done|]. by apply IH.
Qed.

Lemma precedes_earlier (pre post : list ComponentRef) x y :
  y ∉ pre -> precedes (pre ++ x :: post) x y = true.
Proof.
  induction pre as [|z pre IH]; simpl.
  - intros _. by rewrite decide_True.
  - intros [Hyz Hy]%not_elem_of_cons.
    destruct (decide (z = x)); [done|].
    rewrite decide_False by done. by apply IH.
Qed.

(** With the ties ordered as in a sorted list, an element of the list
    is inserted at the place it has there. *)
Lemma sortInsert_precedes (pre post : list ComponentRef) x before after :
  NoDup (pre ++ x :: post) ->
  StronglySorted (descending host) (pre ++ x :: post) ->
  Forall (.∈ pre) before -> Forall (.∈ post) after ->
  sortInsert (precedes (pre ++ x :: post)) (byPriority host) x (before ++ after)
  = before ++ x :: after.
Proof.
  intros Hnodup Hsorted Hbefore Hafter.
  apply NoDup_app in Hnodup as (_ & Hdisjoint & [Hxpost _]%NoDup_cons).
  assert (x ∉ pre) as Hxpre.
  { intros Hin. apply (Hdisjoint x Hin). left. }
  induction Hbefore as [|a before Ha _ IH]; simpl.
  - destruct Hafter as [|b after Hb _]; [done|]. simpl.
    assert (descending host x b) as Hxb.
    { apply sorted_after in Hsorted. rewrite Forall_forall in Hsorted.
      by apply Hsorted. }
    rewrite precedes_earlier.
    2:{ intros Hin. apply (Hdisjoint b Hin). by right. }
    rewrite andb_true_r.
    destruct ((byPriority host x b <? 0) || (byPriority host x b =? 0)) eqn:E; [done|].
    apply orb_false_iff in E as [E1 E2].
    unfold descending, byPriority, priorityOf in *. lia.
  - rewrite precedes_later by done. rewrite andb_false_r, orb_false_r.
    assert (descending host a x) as Hax.
    { apply list_elem_of_split in Ha as (pre1 & pre2 & ->).
      rewrite <- app_assoc in Hsorted. simpl in Hsorted.
      apply sorted_after in Hsorted. rewrite Forall_forall in Hsorted.
      apply Hsorted. apply elem_of_app. right. left. }
    destruct (byPriority host x a <? 0) eqn:E; [|by rewrite IH].
    unfold descending, byPriority, priorityOf in *. lia.
Qed.

(** The model of the sort leaves no outcome out: whatever sorted order an
    engine leaves an array of different converters in, it is the order
    that some way of ordering ties gives. *)
Lemma sort_any_order (l l' : list ComponentRef) :
  NoDup l -> l' ≡ₚ l -> StronglySorted (descending host) l' ->
  sort (fun _ => precedes l') (byPriority host) l = l'.
Proof.
  intros Hnodup Hperm Hsorted. unfold sort.
  assert (NoDup l') as Hnodup' by by rewrite Hperm.
  assert (forall s : list ComponentRef,
             NoDup s -> (forall x, x ∈ s -> x ∈ l') ->
             foldr (sortInsert (precedes l') (byPriority host)) [] s
             = filter (.∈ s) l') as Hgen.
  { induction s as [|x s IH]; intros Hs Hin; simpl.
    - symmetry. apply filter_none. intros y Hy. apply not_elem_of_nil.
    - apply NoDup_cons in Hs as [Hxs Hs].
      rewrite IH by (intros; try apply Hin; by try right). clear IH.
      destruct (list_elem_of_split l' x) as (pre & post & ->); [apply Hin; left|].
      pose proof Hnodup' as Hparts.
      apply NoDup_app in Hparts as (_ & Hdisjoint & [Hxpost _]%NoDup_cons).
      assert (x ∉ pre) as Hxpre.
      { intros Hx. apply (Hdisjoint x Hx). left. }
      rewrite !filter_app, !filter_cons.
      rewrite decide_False by done. rewrite decide_True by left.
      rewrite (filter_later x s pre), (filter_later x s post) by done.
      apply sortInsert_precedes; try done.
      + apply Forall_forall. by intros y [_ Hy]%list_elem_of_filter.
      + apply Forall_forall. by intros y [_ Hy]%list_elem_of_filter. }
  rewrite Hgen; [|done|].
  - apply filter_all. intros x Hx. by rewrite <- Hperm.
  - intros x Hx. by rewrite Hperm.
Qed.

Lemma arrayIndexOf_range x a : arrayIndexOf x a = -1 \/ 0 <= arrayIndexOf x a.
Proof.
  induction a as [|y a IH]; simpl; [by left|].
  case_decide; [right; lia|].
  destruct (arrayIndexOf x a =? -1) eqn:E; [by left | right].
  apply Z.eqb_neq in E. lia.
Qed.

(** [spliceOut] removes the first occurrence. *)
Lemma spliceOut_cons x y a :
  spliceOut x (y :: a) = if decide (x = y) then a else y :: spliceOut x a.
Proof.
  unfold spliceOut. simpl. repeat case_decide; try done.
  destruct (arrayIndexOf_range x a) as [E|E].
  - rewrite E. reflexivity.
  - destruct (arrayIndexOf x a =? -1) eqn:E1; [apply Z.eqb_eq in E1; lia|].
    destruct (arrayIndexOf x a + 1 =? -1) eqn:E2; [apply Z.eqb_eq in E2; lia|].
    replace (Z.to_nat (arrayIndexOf x a + 1)) with (S (Z.to_nat (arrayIndexOf x a))) by lia.
    done.
Qed.

Lemma spliceOut_nil x : spliceOut x [] = [].
Proof. done. Qed.

Lemma spliceOut_sublist x a : spliceOut x a `sublist_of` a.
Proof.
  induction a as [|y a IH]; [done|].
  rewrite spliceOut_cons. destruct (decide (x = y)).
  - by apply sublist_cons.
  - by apply sublist_skip.
Qed.

Lemma spliceOut_sorted x a :
  StronglySorted (descending host) a -> StronglySorted (descending host) (spliceOut x a).
Proof.
  induction 1 as [|y a Ha IH Hy]; [rewrite spliceOut_nil; constructor|].
  rewrite spliceOut_cons. destruct (decide (x = y)); [done|].
  constructor; [done|].
  eapply Forall_forall. intros z Hz. rewrite Forall_forall in Hy. apply Hy.
  eapply elem_of_sublist; [done | apply spliceOut_sublist].
Qed.

Lemma spliceOut_withPriority p x a :
  withPriority host p (spliceOut x a) =
  if decide (priorityOf host x = p) then spliceOut x (withPriority host p a)
  else withPriority host p a.
Proof.
  unfold withPriority. induction a as [|y a IH].
  - rewrite spliceOut_nil. simpl. by destruct (decide _).
  - rewrite spliceOut_cons. destruct (decide (x = y)) as [->|Hxy].
    + rewrite filter_cons. destruct (decide (priorityOf host y = p)); [|done].
      rewrite spliceOut_cons. by rewrite decide_True.
    + rewrite !filter_cons. destruct (decide (priorityOf host y = p)) as [Hy|Hy].
      * rewrite IH. destruct (decide (priorityOf host x = p)); [|done].
        rewrite spliceOut_cons. by rewrite decide_False.
      * apply IH.
Qed.

End Sorting.

Section Registry.
Variable host : Host.

Lemma applyOps_snoc ops op :
  applyOps host (ops ++ [op]) = applyOp host (applyOps host ops) op.
Proof. unfold applyOps. by rewrite foldl_snoc. Qed.

(** [indexOf] and [splice] take the first occurrence out. *)
Lemma spliceOut_withoutFirst (c : ComponentRef) l : spliceOut c l = withoutFirst c l.
Proof.
  induction l as [|x l IH]; [done|].
  rewrite spliceOut_cons. simpl.
  destruct (decide (c = x)) as [->|Hne].
  - by rewrite decide_True.
  - rewrite decide_False by done. by rewrite IH.
Qed.

Lemma registrationOrder_snoc inRole ops op :
  registrationOrder inRole (ops ++ [op]) =
  match op with
  | Register c =>
      if inRole c then registrationOrder inRole ops ++ [c]
      else registrationOrder inRole ops
  | Unregister c => spliceOut c (registrationOrder inRole ops)
  end.
Proof.
  unfold registrationOrder. rewrite foldl_snoc.
  destruct op; [done|]. by rewrite spliceOut_withoutFirst.
Qed.

Lemma withPriority_app p l1 l2 :
  withPriority host p (l1 ++ l2) = withPriority host p l1 ++ withPriority host p l2.
Proof. apply filter_app. Qed.

Lemma listInvariant_register l registered c :
  stableSort host ->
  listInvariant host l registered ->
  listInvariant host (sort (sortTies host) (byPriority host) (l ++ [c])) (registered ++ [c]).
Proof.
  intros Hstable [_ Hsame]. split; [apply sort_sorted|].
  intros p. rewrite sort_withPriority, !withPriority_app by done. by rewrite Hsame.
Qed.

Lemma listInvariant_unregister l registered c :
  listInvariant host l registered ->
  listInvariant host (spliceOut c l) (spliceOut c registered).
Proof.
  intros [Hsorted Hstable]. split; [by apply spliceOut_sorted|].
  intros p. rewrite !spliceOut_withPriority, Hstable. done.
Qed.

Lemma spliceOut_absent (x : ComponentRef) a : x ∉ a -> spliceOut x a = a.
Proof.
  induction a as [|y a IH]; [done|]. intros [Hxy Hx]%not_elem_of_cons.
  rewrite spliceOut_cons, decide_False by done. by rewrite IH.
Qed.

Lemma spliceOut_present (x : ComponentRef) a : x ∈ a -> a ≡ₚ x :: spliceOut x a.
Proof.
  induction a as [|y a IH]; [by intros ?%elem_of_nil|].
  rewrite spliceOut_cons. destruct (decide (x = y)) as [->|Hxy]; [done|].
  intros [?|Hin]%elem_of_cons; [done|].
  rewrite (IH Hin) at 1. apply Permutation_swap.
Qed.

(** Removing a converter from two arrays that hold the same converters
    leaves arrays that hold the same converters. *)
Lemma spliceOut_perm (x : ComponentRef) a b : a ≡ₚ b -> spliceOut x a ≡ₚ spliceOut x b.
Proof.
  intros Hab. destruct (decide (x ∈ a)) as [Hin|Hout].
  - assert (x ∈ b) as Hin' by by rewrite <- Hab.
    apply (Permutation_cons_inv (a := x)).
    by rewrite <- !spliceOut_present.
  - assert (x ∉ b) as Hout' by by rewrite <- Hab.
    by rewrite !spliceOut_absent.
Qed.

(** The two lists of a converter reached by registrations are sorted and
    hold the converters registered in their roles and not removed since,
    on any engine. *)
Lemma registry_sorted (ops : list RegistryOp) :
  (StronglySorted (descending host) (typeNodeConverters (applyOps host ops)) /\
   typeNodeConverters (applyOps host ops) ≡ₚ registrationOrder (hasNodeRole host) ops) /\
  (StronglySorted (descending host) (typeTypeConverters (applyOps host ops)) /\
   typeTypeConverters (applyOps host ops) ≡ₚ registrationOrder (hasTypeRole host) ops).
Proof.
  induction ops as [|op ops [[Sn Pn] [St Pt]]] using rev_ind.
  - split; split; try constructor; done.
  - rewrite applyOps_snoc, !registrationOrder_snoc.
    destruct op as [c|c]; simpl.
    + unfold hasNodeRole, hasTypeRole. split.
      * destruct (nodeRole (typeComponent host c)) as [r|] eqn:E.
        -- rewrite bool_decide_true by eauto.
           split; [apply sort_sorted | by rewrite sort_perm, Pn].
        -- rewrite bool_decide_false by (intros [? ?]; done). done.
      * destruct (typeRole (typeComponent host c)) as [r|] eqn:E.
        -- rewrite bool_decide_true by eauto.
           split; [apply sort_sorted | by rewrite sort_perm, Pt].
        -- rewrite bool_decide_false by (intros [? ?]; done). done.
    + split; (split; [by apply spliceOut_sorted | by apply spliceOut_perm]).
Qed.

(** The two lists of a converter reached by registrations, against the
    registrations of their roles, when the engine's sort is stable. *)
Lemma registry_invariant (ops : list RegistryOp) :
  stableSort host ->
  listInvariant host (typeNodeConverters (applyOps host ops))
                (registrationOrder (hasNodeRole host) ops) /\
  listInvariant host (typeTypeConverters (applyOps host ops))
                (registrationOrder (hasTypeRole host) ops).
Proof.
  intros Hstable.
  induction ops as [|op ops [IHn IHt]] using rev_ind.
  - split; split; try constructor; done.
  - rewrite applyOps_snoc, !registrationOrder_snoc.
    destruct op as [c|c]; simpl.
    + unfold hasNodeRole, hasTypeRole. split.
      * destruct (nodeRole (typeComponent host c)) as [r|] eqn:E.
        -- rewrite bool_decide_true by eauto. by apply listInvariant_register.
        -- rewrite bool_decide_false by (intros [? ?]; done). done.
      * destruct (typeRole (typeComponent host c)) as [r|] eqn:E.
        -- rewrite bool_decide_true by eauto. by apply listInvariant_register.
        -- rewrite bool_decide_false by (intros [? ?]; done). done.
    + split; by apply listInvariant_unregister.
Qed.

(** C6, as the code has it: after any sequence of [addTypeConverter] and
    [removeTypeConverter] calls on a fresh converter, [typeNodeConverters]
    and [typeTypeConverters] are sorted by descending priority (a missing
    priority counting as 0) and hold the converters registered in their
    role and not removed since; when the engine's [Array.prototype.sort]
    is stable, the converters of any one priority stand in the order in
    which they were registered. *)
Theorem priority_lists_sorted (ops : list RegistryOp) :
  let cv := applyOps host ops in
  StronglySorted (descending host) (typeNodeConverters cv) /\
  StronglySorted (descending host) (typeTypeConverters cv) /\
  typeNodeConverters cv ≡ₚ registrationOrder (hasNodeRole host) ops /\
  typeTypeConverters cv ≡ₚ registrationOrder (hasTypeRole host) ops /\
  (stableSort host ->
   (forall p, withPriority host p (typeNodeConverters cv) =
              withPriority host p (registrationOrder (hasNodeRole host) ops)) /\
   (forall p, withPriority host p (typeTypeConverters cv) =
              withPriority host p (registrationOrder (hasTypeRole host) ops))).
Proof.
  cbv zeta. destruct (registry_sorted ops) as [[Sn Pn] [St Pt]].
  split_and!; try done.
  intros Hstable. destruct (registry_invariant ops Hstable) as [[_ Hn] [_ Ht]].
  by split.
Qed.

Lemma foldl_insert_kept (c : ComponentRef) (k : Z) (kinds : list Z) :
  forall m : gmap Z ComponentRef,
    m !! k = Some c ->
    foldl (fun m supports => <[supports := c]> m) m kinds !! k = Some c.
Proof.
  induction kinds as [|s kinds IH]; intros m Hm; simpl; [done|].
  apply IH. destruct (decide (s = k)) as [->|Hne].
  - apply lookup_insert_eq.
  - by rewrite lookup_insert_ne.
Qed.

Lemma foldl_insert_set (c : ComponentRef) (k : Z) (kinds : list Z) :
  forall m : gmap Z ComponentRef,
    k ∈ kinds ->
    foldl (fun m supports => <[supports := c]> m) m kinds !! k = Some c.
Proof.
  induction kinds as [|s kinds IH]; intros m Hk; simpl.
  - by apply elem_of_nil in Hk.
  - apply elem_of_cons in Hk as [->|Hk]; [|by apply IH].
    apply foldl_insert_kept, lookup_insert_eq.
Qed.

(** X2: after [addNodeConverter], the converter is the one registered
    for each kind it supports, whatever was registered for the kind
    before. *)
Theorem addNodeConverter_replaces (converter : ComponentRef) (cv : Converter) (k : Z) :
  k ∈ supports (nodeComponent host converter) ->
  nodeConverters (addNodeConverter host converter cv) !! k = Some converter.
Proof. intros Hk. unfold addNodeConverter. simpl. by apply foldl_insert_set. Qed.

End Registry.

(** ** Running computations *)

Lemma bind_Ok {A B} (m : M A) (f : A -> M B) w b w'' :
  bind m f w = Ok b w'' -> exists a w', m w = Ok a w' /\ f a w' = Ok b w''.
Proof.
  unfold bind. destruct (m w) as [a w'| |]; [eauto | done | done].
Qed.

Lemma bind_step {A B} (m : M A) (f : A -> M B) w a w' :
  m w = Ok a w' -> bind m f w = f a w'.
Proof. unfold bind. by intros ->. Qed.

Lemma arrayIndexOf_absent x a : arrayIndexOf x a = -1 <-> x ∉ a.
Proof.
  induction a as [|y a IH]; simpl.
  - split; [intros _; apply not_elem_of_nil | done].
  - case_decide as Hxy.
    + subst. split; [done | intros []; left].
    + rewrite not_elem_of_cons.
      destruct (arrayIndexOf_range x a) as [E|E].
      * rewrite E. simpl. split; [intros _; split; [done | by apply IH] | done].
      * destruct (arrayIndexOf x a =? -1) eqn:E1; [apply Z.eqb_eq in E1; lia|].
        split; [lia|]. intros [_ H%IH]. lia.
Qed.

Lemma lookup_snoc_length {A} (l : list A) (x : A) : (l ++ [x]) !! length l = Some x.
Proof. by rewrite list_lookup_middle. Qed.

Lemma insert_snoc_length {A} (l : list A) (x y : A) :
  <[length l := y]> (l ++ [x]) = l ++ [y].
Proof.
  rewrite insert_app_r_alt by lia. by rewrite Nat.sub_diag.
Qed.

Section Traversal.
Variable host : Host.

Lemma convertNode_unfold fuel cv node w (stack : list Node) :
  nodeArrays w !! visitStack (ctx w) = Some stack ->
  convertNode host (S fuel) cv node w =
  if negb (arrayIndexOf node stack =? -1) then Ok None w
  else
    match callNodeConverter host (convertNode host fuel cv) cv node
                            (enterNode node stack w) with
    | Ok result w' =>
        postProcess host node result (withVisitStack (visitStack (ctx w)) w')
    | Throw e => Throw e
    | OutOfFuel => OutOfFuel
    end.
Proof.
  intros Hstack. simpl.
  unfold bind at 1, getContext. unfold bind at 1, readNodeArray. rewrite Hstack.
  destruct (negb (arrayIndexOf node stack =? -1)); [done|].
  unfold slice, readNodeArray, bind at 1 2. rewrite Hstack.
  unfold bind at 1, setVisitStack. unfold bind at 1, getContext.
  unfold bind at 1, push, readNodeArray, bind at 1. simpl.
  rewrite lookup_snoc_length. simpl. rewrite insert_snoc_length.
  unfold bind at 1.
  change (setNodeArrays _ _) with (enterNode node stack w).
  destruct (callNodeConverter _ _ _ _ _) as [result w'| |]; done.
Qed.

Lemma footprint_refl w : footprint w w.
Proof.
  split; try done. exists []. by rewrite app_nil_r.
Qed.

Lemma footprint_trans w1 w2 w3 : footprint w1 w2 -> footprint w2 w3 -> footprint w1 w3.
Proof.
  intros [? ? ? Ha ? (es1 & ? & ?)] [? ? ? Hb ? (es2 & ? & ?)].
  split; try congruence; [auto|].
  exists (es1 ++ es2). split; [|by apply Forall_app].
  rewrite app_assoc. congruence.
Qed.

Lemma postProcess_world node result w r w' :
  postProcess host node result w = Ok r w' -> w' = w.
Proof.
  unfold postProcess. destruct result as [refl|]; [|unfold ret; congruence].
  intros (r1 & w1 & H1 & H2)%bind_Ok. unfold ret in H2.
  assert (w1 = w) as ->; [|congruence].
  destruct (getRawComment host node) as [c|]; [|unfold ret in H1; congruence].
  destruct (negb _); [|unfold ret in H1; congruence].
  unfold applyNotSupportedIn in H1.
  destruct (TagRegex.exec c); [unfold ret in H1; congruence | done].
Qed.

Lemma runPlugin_footprint (owner : Node -> M (option Reflection)) :
  (forall n w r w', owner n w = Ok r w' -> footprint w w') ->
  forall p w r w', runPlugin owner p w = Ok r w' -> footprint w w'.
Proof.
  intros Howner. induction p as [result|message|child k IH|refl k IH]; simpl; intros w r w' H.
  - unfold ret in H. injection H as _ <-. apply footprint_refl.
  - done.
  - apply bind_Ok in H as (r1 & w1 & H1 & H2).
    eapply footprint_trans; [by eapply Howner | by eapply IH].
  - apply bind_Ok in H as ([] & w1 & H1 & H2).
    eapply footprint_trans; [|by eapply IH].
    unfold registerReflection in H1. injection H1 as <-.
    split; try done. exists []. by rewrite app_nil_r.
Qed.

Lemma callNodeConverter_footprint (owner : Node -> M (option Reflection)) cv node :
  (forall n w r w', owner n w = Ok r w' -> footprint w w') ->
  forall w r w', callNodeConverter host owner cv node w = Ok r w' -> footprint w w'.
Proof.
  intros Howner w r w'. unfold callNodeConverter.
  destruct (nodeConverters cv !! nodeKind host node) as [converter|].
  - intros ([] & w1 & H1 & H2)%bind_Ok.
    eapply footprint_trans; [|by eapply runPlugin_footprint].
    unfold emit in H1. injection H1 as <-.
    split; try done. eexists. split; [done|]. by repeat constructor.
  - unfold ret. intros [= _ <-]. apply footprint_refl.
Qed.

Lemma enterNode_footprint node (stack : list Node) w :
  footprint (withVisitStack (length (nodeArrays w)) w) (enterNode node stack w).
Proof.
  split; try done.
  - intros l a Hl. simpl in *. by apply lookup_app_l_Some.
  - exists []. by rewrite app_nil_r.
Qed.

(** What [convertNode] leaves behind when it returns. *)
Lemma convertNode_footprint fuel cv :
  forall node w r w', convertNode host fuel cv node w = Ok r w' -> footprint w w'.
Proof.
  induction fuel as [|fuel IH]; [done|]. intros node w r w' H.
  destruct (nodeArrays w !! visitStack (ctx w)) as [stack|] eqn:Hstack.
  - rewrite (convertNode_unfold _ _ _ _ _ Hstack) in H.
    destruct (negb _).
    + injection H as _ <-. apply footprint_refl.
    + destruct (callNodeConverter _ _ _ _ _) as [result w1| |] eqn:Hcall; try done.
      apply postProcess_world in H as ->.
      apply callNodeConverter_footprint in Hcall; [|done].
      destruct Hcall as [? ? ? Ha ? (es & ? & ?)].
      split; simpl in *; try congruence; [|by exists es].
      intros l a Hl. apply Ha. by apply lookup_app_l_Some.
  - simpl in H. unfold bind at 1, getContext in H.
    unfold bind at 1, readNodeArray in H. by rewrite Hstack in H.
Qed.

(** C5: [convertNode] returns nothing, and does not throw, in the two
    traversal gaps.  When the node is already in [context.visitStack] it
    returns at once and leaves the world as it was, so that no node
    converter was called.  When no node converter is registered for the
    kind of the node it returns nothing as well, with the context and the
    log of calls as they were. *)
Theorem convertNode_traversal_gaps fuel cv node w (stack : list Node) :
  nodeArrays w !! visitStack (ctx w) = Some stack ->
  (node ∈ stack -> convertNode host (S fuel) cv node w = Ok None w) /\
  (node ∉ stack -> nodeConverters cv !! nodeKind host node = None ->
   exists w', convertNode host (S fuel) cv node w = Ok None w' /\
              ctx w' = ctx w /\ log w' = log w).
Proof.
  intros Hstack. rewrite (convertNode_unfold _ _ _ _ _ Hstack). split.
  - intros Hin. destruct (arrayIndexOf node stack =? -1) eqn:E; [|done].
    apply Z.eqb_eq, arrayIndexOf_absent in E. done.
  - intros Hnotin%arrayIndexOf_absent Hnone. rewrite Hnotin. simpl.
    unfold callNodeConverter. rewrite Hnone. simpl.
    eexists. split; [done|]. split; [|done].
    simpl. by destruct (ctx w).
Qed.

(** C7: when [convertNode] returns, [context.visitStack] is the array it
    was before the call, and every array that existed before the call, the
    caller's stack among them, holds what it held: the node was pushed onto
    a copy only. *)
Theorem convertNode_restores_visitStack fuel cv node w r w' :
  convertNode host fuel cv node w = Ok r w' ->
  visitStack (ctx w') = visitStack (ctx w) /\
  nodeArrays w' !! visitStack (ctx w') = nodeArrays w !! visitStack (ctx w) /\
  (forall (l : Loc) (a : list Node),
     nodeArrays w !! l = Some a -> nodeArrays w' !! l = Some a).
Proof.
  intros H. pose proof (convertNode_footprint _ _ _ _ _ _ H) as [Hv _ _ Ha _ _].
  split; [done|]. split; [|done]. rewrite Hv.
  destruct (nodeArrays w !! visitStack (ctx w)) as [stack|] eqn:Hstack; [by apply Ha|].
  destruct fuel as [|fuel]; [done|]. simpl in H.
  unfold bind at 1, getContext in H. unfold bind at 1, readNodeArray in H.
  by rewrite Hstack in H.
Qed.

End Traversal.

(** ** Type resolution *)

Lemma logged_logged es1 es2 w : logged es2 (logged es1 w) = logged (es1 ++ es2) w.
Proof. unfold logged. simpl. by rewrite app_assoc. Qed.

Lemma logged_nil w : logged [] w = w.
Proof. unfold logged. rewrite app_nil_r. by destruct w. Qed.

Section TypeResolution.
Variable host : Host.

Lemma scanNodeConverters_hit pre c post node type result w :
  Forall (rejectsNode host node type) pre ->
  acceptsNode host node type c result ->
  scanNodeConverters host (pre ++ c :: post) node type w =
  Ok (Some result) (logged (map EvSupportsNode (pre ++ [c]) ++ [EvConvertNode c]) w).
Proof.
  intros Hpre (s & cn & Hrole & Hs & Hcn). revert w.
  induction Hpre as [|x pre (sx & cx & Hx & Hsx) _ IH]; intros w; simpl.
  - rewrite Hrole. unfold bind, emit. rewrite Hs. unfold ret.
    by rewrite logged_logged, Hcn.
  - rewrite Hx. unfold bind at 1, emit at 1. rewrite Hsx, IH.
    by rewrite logged_logged.
Qed.

Lemma scanNodeConverters_miss l node type w :
  Forall (rejectsNode host node type) l ->
  scanNodeConverters host l node type w = Ok None (logged (map EvSupportsNode l) w).
Proof.
  intros Hl. revert w.
  induction Hl as [|x l (sx & cx & Hx & Hsx) _ IH]; intros w; simpl.
  - unfold ret. by rewrite logged_nil.
  - rewrite Hx. unfold bind at 1, emit at 1. rewrite Hsx, IH.
    by rewrite logged_logged.
Qed.

Lemma scanTypeConverters_hit pre c post type result w :
  Forall (rejectsType host type) pre ->
  acceptsType host type c result ->
  scanTypeConverters host (pre ++ c :: post) type w =
  Ok (Some result) (logged (map EvSupportsType (pre ++ [c]) ++ [EvConvertType c]) w).
Proof.
  intros Hpre (s & cn & Hrole & Hs & Hcn). revert w.
  induction Hpre as [|x pre (sx & cx & Hx & Hsx) _ IH]; intros w; simpl.
  - rewrite Hrole. unfold bind, emit. rewrite Hs. unfold ret.
    by rewrite logged_logged, Hcn.
  - rewrite Hx. unfold bind at 1, emit at 1. rewrite Hsx, IH.
    by rewrite logged_logged.
Qed.

Lemma scanTypeConverters_miss l type w :
  Forall (rejectsType host type) l ->
  scanTypeConverters host l type w = Ok None (logged (map EvSupportsType l) w).
Proof.
  intros Hl. revert w.
  induction Hl as [|x l (sx & cx & Hx & Hsx) _ IH]; intros w; simpl.
  - unfold ret. by rewrite logged_nil.
  - rewrite Hx. unfold bind at 1, emit at 1. rewrite Hsx, IH.
    by rewrite logged_logged.
Qed.

(** The first part of [convertType] when a node is given. *)
Lemma convertType_typeAt cv node type w :
  convertType host cv (Some node) type w =
  match scanNodeConverters host (typeNodeConverters cv) node (typeAt host node type)
                           (logged (typeLookup node type) w) with
  | Ok (Some result) w' => Ok result w'
  | Ok None w' =>
      match typeAt host node type with
      | Some t =>
          match scanTypeConverters host (typeTypeConverters cv) t w' with
          | Ok hit w'' => Ok (default None hit) w''
          | Throw e => Throw e
          | OutOfFuel => OutOfFuel
          end
      | None => Ok None w'
      end
  | Throw e => Throw e
  | OutOfFuel => OutOfFuel
  end.
Proof.
  unfold convertType, typeAt, typeLookup.
  destruct type as [t|]; simpl.
  - unfold bind at 1 2 3, ret at 1. rewrite logged_nil.
    destruct (scanNodeConverters _ _ _ _ _) as [[result|] w'| |]; done.
  - unfold bind at 1 2 3 4, emit at 1, ret at 1.
    destruct (scanNodeConverters _ _ _ _ _) as [[result|] w'| |]; try done.
    unfold ret at 1. destruct (getTypeAtLocation host node) as [t|]; [|done].
    unfold bind, ret. by destruct (scanTypeConverters _ _ _ _) as [hit w''| |].
Qed.

(** C4: [convertType] asks the node-driven converters in the order of
    their list when a node is given, the type being read from the checker
    first when none is given; the first of them that supports the node
    gives the result and neither a later node-driven converter nor any
    type-driven converter is asked.  The type-driven converters are asked,
    in the order of their list and up to the first that supports the type,
    when no node is given or no node-driven converter supports it.  When
    nothing supports the input the result is undefined. *)
Theorem convertType_first_match cv w :
  (forall node type pre c post result,
     typeNodeConverters cv = pre ++ c :: post ->
     Forall (rejectsNode host node (typeAt host node type)) pre ->
     acceptsNode host node (typeAt host node type) c result ->
     convertType host cv (Some node) type w =
     Ok result (logged (typeLookup node type ++ map EvSupportsNode (pre ++ [c])
                          ++ [EvConvertNode c]) w)) /\
  (forall node type t pre c post result,
     Forall (rejectsNode host node (typeAt host node type)) (typeNodeConverters cv) ->
     typeAt host node type = Some t ->
     typeTypeConverters cv = pre ++ c :: post ->
     Forall (rejectsType host t) pre ->
     acceptsType host t c result ->
     convertType host cv (Some node) type w =
     Ok result (logged (typeLookup node type ++ map EvSupportsNode (typeNodeConverters cv)
                          ++ map EvSupportsType (pre ++ [c]) ++ [EvConvertType c]) w)) /\
  (forall t pre c post result,
     typeTypeConverters cv = pre ++ c :: post ->
     Forall (rejectsType host t) pre ->
     acceptsType host t c result ->
     convertType host cv None (Some t) w =
     Ok result (logged (map EvSupportsType (pre ++ [c]) ++ [EvConvertType c]) w)) /\
  (forall node type,
     Forall (rejectsNode host node (typeAt host node type)) (typeNodeConverters cv) ->
     (forall t, typeAt host node type = Some t ->
                Forall (rejectsType host t) (typeTypeConverters cv)) ->
     exists w', convertType host cv (Some node) type w = Ok None w') /\
  (forall t,
     Forall (rejectsType host t) (typeTypeConverters cv) ->
     exists w', convertType host cv None (Some t) w = Ok None w') /\
  convertType host cv None None w = Ok None w.
Proof.
  repeat split.
  - intros node type pre c post result Hlist Hpre Hc.
    rewrite convertType_typeAt, Hlist.
    rewrite (scanNodeConverters_hit _ _ _ _ _ _ _ Hpre Hc).
    by rewrite logged_logged.
  - intros node type t pre c post result Hnode Ht Hlist Hpre Hc.
    rewrite convertType_typeAt, (scanNodeConverters_miss _ _ _ _ Hnode), Ht, Hlist.
    rewrite (scanTypeConverters_hit _ _ _ _ _ _ Hpre Hc).
    rewrite !logged_logged. by rewrite <- ?app_assoc.
  - intros t pre c post result Hlist Hpre Hc.
    unfold convertType. unfold bind at 1, ret at 1. rewrite Hlist.
    unfold bind. by rewrite (scanTypeConverters_hit _ _ _ _ _ _ Hpre Hc).
  - intros node type Hnode Htype.
    rewrite convertType_typeAt, (scanNodeConverters_miss _ _ _ _ Hnode).
    destruct (typeAt host node type) as [t|]; [|by eexists].
    rewrite (scanTypeConverters_miss _ _ _ (Htype t eq_refl)). by eexists.
  - intros t Ht. unfold convertType. unfold bind at 1, ret at 1.
    unfold bind. rewrite (scanTypeConverters_miss _ _ _ Ht). by eexists.
Qed.

End TypeResolution.

(** ** The diagnostic pipeline *)

Section Compile.
Variable host : Host.

Lemma fixFileName_footprint sourceFile w w' :
  fixFileName host sourceFile w = Ok tt w' -> footprint w w'.
Proof.
  unfold fixFileName. destruct (fileNameOf w !! sourceFile) as [fileName|]; [|done].
  destruct (isAbsolute host fileName); intros [= <-].
  - apply footprint_refl.
  - split; try done. exists []. by rewrite app_nil_r.
Qed.

Lemma forEach_footprint {A} (f : A -> M unit) (l : list A) :
  (forall x w w', f x w = Ok tt w' -> footprint w w') ->
  forall w w', forEach f l w = Ok tt w' -> footprint w w'.
Proof.
  intros Hf. induction l as [|x l IH]; simpl; intros w w' H.
  - injection H as <-. apply footprint_refl.
  - apply bind_Ok in H as ([] & w1 & H1 & H2).
    eapply footprint_trans; [by eapply Hf | by eapply IH].
Qed.

Lemma convertSourceFiles_footprint fuel cv w w' :
  convertSourceFiles host fuel cv w = Ok tt w' -> footprint w w'.
Proof.
  unfold convertSourceFiles. unfold bind at 1, getContext.
  apply forEach_footprint. intros sourceFile w0 w3 H.
  apply bind_Ok in H as ([] & w1 & H1 & H2).
  apply bind_Ok in H2 as (r & w2 & H2 & H3). injection H3 as <-.
  eapply footprint_trans;
    [by eapply fixFileName_footprint | by eapply convertNode_footprint].
Qed.

Lemma hasLength_nil {A} : hasLength (@nil A) = false.
Proof. done. Qed.

Lemma hasLength_cons {A} (x : A) l : hasLength (x :: l) = true.
Proof. unfold hasLength. simpl. destruct (length l); done. Qed.

Lemma getDiagnostics_run phase w :
  getDiagnostics phase w =
  Ok (diagnosticsOf (program (ctx w)) phase) (logged [EvDiagnostics phase] w).
Proof. done. Qed.

(** [compile], once the source files are converted, is the pipeline of
    the specification. *)
Lemma compile_pipeline fuel cv w w1 :
  convertSourceFiles host fuel cv w = Ok tt w1 ->
  compile host fuel cv w =
  Ok (pipeline (program (ctx w)) allPhases).2
     (logged (map EvDiagnostics (pipeline (program (ctx w)) allPhases).1) w1).
Proof.
  intros H. unfold compile. rewrite (bind_step _ _ _ _ _ H).
  apply convertSourceFiles_footprint in H as [_ _ <- _ _ _].
  set (p := program (ctx w1)).
  unfold bind at 1. rewrite getDiagnostics_run. simpl. fold p.
  destruct (getOptionsDiagnostics p) as [|d1 l1]; [|by rewrite hasLength_cons].
  rewrite hasLength_nil.
  unfold bind at 1. rewrite getDiagnostics_run. simpl. fold p.
  destruct (getSyntacticDiagnostics p) as [|d2 l2];
    [|by rewrite hasLength_cons, logged_logged].
  rewrite hasLength_nil.
  unfold bind at 1. rewrite getDiagnostics_run. simpl. fold p.
  destruct (getGlobalDiagnostics p) as [|d3 l3];
    [|by rewrite hasLength_cons, !logged_logged].
  rewrite hasLength_nil.
  unfold bind at 1. rewrite getDiagnostics_run. simpl. fold p.
  destruct (getSemanticDiagnostics p) as [|d4 l4];
    [|by rewrite hasLength_cons, !logged_logged].
  rewrite hasLength_nil. by rewrite !logged_logged.
Qed.

(** C3: once the source files are converted, [compile] asks the program
    for its options, syntactic, global and semantic diagnostics in this
    order; the first list that is not empty is returned as it is and no
    later phase is asked; when the four lists are empty the result is the
    empty list. *)
Theorem compile_short_circuits fuel cv w w1 :
  convertSourceFiles host fuel cv w = Ok tt w1 ->
  let p := program (ctx w) in
  (getOptionsDiagnostics p <> [] ->
   compile host fuel cv w =
   Ok (getOptionsDiagnostics p) (logged [EvDiagnostics OptionsPhase] w1)) /\
  (getOptionsDiagnostics p = [] -> getSyntacticDiagnostics p <> [] ->
   compile host fuel cv w =
   Ok (getSyntacticDiagnostics p)
      (logged [EvDiagnostics OptionsPhase; EvDiagnostics SyntacticPhase] w1)) /\
  (getOptionsDiagnostics p = [] -> getSyntacticDiagnostics p = [] ->
   getGlobalDiagnostics p <> [] ->
   compile host fuel cv w =
   Ok (getGlobalDiagnostics p)
      (logged [EvDiagnostics OptionsPhase; EvDiagnostics SyntacticPhase;
               EvDiagnostics GlobalPhase] w1)) /\
  (getOptionsDiagnostics p = [] -> getSyntacticDiagnostics p = [] ->
   getGlobalDiagnostics p = [] -> getSemanticDiagnostics p <> [] ->
   compile host fuel cv w =
   Ok (getSemanticDiagnostics p)
      (logged [EvDiagnostics OptionsPhase; EvDiagnostics SyntacticPhase;
               EvDiagnostics GlobalPhase; EvDiagnostics SemanticPhase] w1)) /\
  (getOptionsDiagnostics p = [] -> getSyntacticDiagnostics p = [] ->
   getGlobalDiagnostics p = [] -> getSemanticDiagnostics p = [] ->
   compile host fuel cv w =
   Ok [] (logged [EvDiagnostics OptionsPhase; EvDiagnostics SyntacticPhase;
                  EvDiagnostics GlobalPhase; EvDiagnostics SemanticPhase] w1)).
Proof.
  intros H p. rewrite (compile_pipeline _ _ _ _ H). fold p. simpl.
  repeat split.
  - intros H1. by destruct (getOptionsDiagnostics p).
  - intros -> H2. by destruct (getSyntacticDiagnostics p).
  - intros -> -> H3. by destruct (getGlobalDiagnostics p).
  - intros -> -> -> H4. by destruct (getSemanticDiagnostics p).
  - by intros -> -> -> ->.
Qed.

End Compile.

(** ** The lifecycle *)

Section Lifecycle.
Variable host : Host.

Lemma setStringArrays_same w : setStringArrays (stringArrays w) w = w.
Proof. by destruct w. Qed.

(** The loop of [convert] overwrites the entries from [i] on. *)
Lemma normalizeFrom_run (l : Loc) remaining :
  forall i (a : list string) w,
    stringArrays w !! l = Some a ->
    (i + remaining)%nat = length a ->
    normalizeFrom host l i remaining w =
    Ok tt (setStringArrays
             (<[l := take i a ++ map (normalized host) (drop i a)]> (stringArrays w)) w).
Proof.
  induction remaining as [|remaining IH]; intros i a w Ha Hlen; simpl.
  - rewrite drop_ge, app_nil_r, firstn_all2 by lia.
    by rewrite list_insert_id, setStringArrays_same.
  - unfold bind at 1, readStringArray at 1. rewrite Ha.
    destruct (a !! i) as [fileName|] eqn:Hi;
      [|apply lookup_ge_None in Hi; lia].
    unfold bind at 1, writeString, bind at 1, readStringArray. rewrite Ha.
    set (a1 := <[i := normalizePath host (normalizeSlashes host fileName)]> a).
    set (w1 := setStringArrays _ w).
    assert (l < length (stringArrays w))%nat as Hl by (by eapply lookup_lt_Some).
    rewrite (IH (S i) a1 w1).
    + f_equal. unfold w1, setStringArrays. simpl. rewrite list_insert_insert_eq.
      do 2 f_equal. unfold a1.
      rewrite (take_S_r _ _ _ (list_lookup_insert_eq _ _ _ (lookup_lt_Some _ _ _ Hi))).
      rewrite take_insert_ge by lia. rewrite drop_insert_lt by lia.
      rewrite (drop_S _ _ _ Hi). simpl. by rewrite <- app_assoc.
    + unfold w1. simpl. by rewrite list_lookup_insert_eq.
    + unfold a1. rewrite length_insert. lia.
Qed.

Lemma normalizeFileNames_run (l : Loc) (a : list string) w :
  stringArrays w !! l = Some a ->
  normalizeFileNames host l w =
  Ok tt (setStringArrays (<[l := map (normalized host) a]> (stringArrays w)) w).
Proof.
  intros Ha. unfold normalizeFileNames, bind, readStringArray. rewrite Ha.
  by rewrite (normalizeFrom_run l (length a) 0 a w Ha).
Qed.

Lemma forEach_trigger (entries : list nat) w :
  forEach (fun id => trigger EVENT_RESOLVE (Some id)) entries w =
  Ok tt (logged (map resolveEvent entries) w).
Proof.
  revert w. induction entries as [|entry entries IH]; intros w; simpl.
  - by rewrite logged_nil.
  - unfold bind, trigger, emit. by rewrite IH, logged_logged.
Qed.

Lemma resolve_run w :
  resolve w =
  Ok (project (ctx w))
     (logged ([EvTrigger EVENT_RESOLVE_BEGIN None] ++ map resolveEvent (project (ctx w))
                ++ [EvTrigger EVENT_RESOLVE_END None]) w).
Proof.
  unfold resolve. unfold bind at 1, trigger at 1, emit.
  unfold bind at 1, getContext. unfold bind at 1. simpl.
  rewrite forEach_trigger. unfold bind, trigger, emit, ret.
  by rewrite !logged_logged.
Qed.

End Lifecycle.

(** ** Termination of the traversal *)

Lemma NoDup_below_length (l : list nat) N :
  NoDup l -> (forall x, x ∈ l -> (x < N)%nat) -> (length l <= N)%nat.
Proof.
  intros Hnd Hlt.
  assert (l ⊆+ seq 0%nat N) as Hsub%submseteq_length.
  { apply NoDup_submseteq; [done|].
    intros x Hx. apply elem_of_seq. specialize (Hlt x Hx). lia. }
  by rewrite length_seq in Hsub.
Qed.

Section Termination.
Variable host : Host.

Lemma postProcess_terminated node result w : terminated (postProcess host node result w).
Proof.
  unfold postProcess. destruct result as [r|]; [|done].
  unfold bind. destruct (getRawComment host node) as [c|]; [|done].
  destruct (negb (JsString.indexOf "@notSupportedIn" c =? -1)); [|done].
  unfold applyNotSupportedIn. by destruct (TagRegex.exec c).
Qed.

Lemma runPlugin_terminated N (owner : Node -> M (option Reflection)) (stack : list Node) :
  (forall n w r w', owner n w = Ok r w' -> footprint w w') ->
  (forall n w, (n < N)%nat -> nodeArrays w !! visitStack (ctx w) = Some stack ->
               terminated (owner n w)) ->
  forall p, asksBelow N p ->
  forall w, nodeArrays w !! visitStack (ctx w) = Some stack ->
            terminated (runPlugin owner p w).
Proof.
  intros Hfp Howner p Hp.
  induction Hp as [result|message|child k Hchild _ IH|r k _ IH]; intros w Hstack; simpl.
  - done.
  - done.
  - unfold bind. pose proof (Howner child w Hchild Hstack) as Hterm.
    destruct (owner child w) as [r w1| |] eqn:E; [|done..].
    apply IH. destruct (Hfp _ _ _ _ E) as [Hv _ _ Ha _ _].
    rewrite Hv. by apply Ha.
  - unfold bind, registerReflection. by apply IH.
Qed.

(** With fuel for every node that is not yet on the visit stack, and one
    more, [convertNode] comes to an end. *)
Lemma convertNode_enough_fuel N cv :
  (forall k c n, nodeConverters cv !! k = Some c -> (n < N)%nat ->
                 asksBelow N (convert_ (nodeComponent host c) n)) ->
  forall fuel node w (stack : list Node),
    nodeArrays w !! visitStack (ctx w) = Some stack ->
    NoDup stack -> (forall x, x ∈ stack -> (x < N)%nat) -> (node < N)%nat ->
    (N < fuel + length stack)%nat ->
    terminated (convertNode host fuel cv node w).
Proof.
  intros Hconv. induction fuel as [|fuel IH]; intros node w stack Hstack Hnd Hlt Hnode Hfuel.
  - pose proof (NoDup_below_length _ _ Hnd Hlt). simpl in Hfuel. unfold Node in *. lia.
  - rewrite (convertNode_unfold _ _ _ _ _ _ Hstack).
    destruct (arrayIndexOf node stack =? -1) eqn:Hin; [|done]. simpl.
    apply Z.eqb_eq, arrayIndexOf_absent in Hin.
    assert (terminated (callNodeConverter host (convertNode host fuel cv) cv node
                                          (enterNode node stack w))) as Hcall.
    { unfold callNodeConverter.
      destruct (nodeConverters cv !! nodeKind host node) as [c|] eqn:Hc; [|done].
      unfold bind, emit.
      apply (runPlugin_terminated N _ (stack ++ [node]));
        [apply convertNode_footprint| |by eapply Hconv|by apply lookup_snoc_length].
      intros n w0 Hn Hw0. apply (IH n w0 (stack ++ [node]) Hw0); [| |done|].
      - apply NoDup_app. split; [done|]. split; [|apply NoDup_singleton].
        intros x Hx ->%list_elem_of_singleton. done.
      - intros x [Hx| ->%list_elem_of_singleton]%elem_of_app; [by apply Hlt | done].
      - rewrite length_app. simpl. unfold Node in *. lia. }
    destruct (callNodeConverter _ _ _ _ _) as [result w1| |]; [|done..].
    apply postProcess_terminated.
Qed.

(** X1: the traversal of a finite set of nodes comes to an end, however
    the nodes refer to each other: when the visit stack holds distinct
    nodes below [N] and the node converters ask for nodes below [N] only,
    [convertNode] with fuel [N + 1] returns or throws. *)
Theorem convertNode_terminates N cv node w (stack : list Node) :
  (forall k c n, nodeConverters cv !! k = Some c -> (n < N)%nat ->
                 asksBelow N (convert_ (nodeComponent host c) n)) ->
  nodeArrays w !! visitStack (ctx w) = Some stack ->
  NoDup stack -> (forall x, x ∈ stack -> (x < N)%nat) -> (node < N)%nat ->
  terminated (convertNode host (S N) cv node w).
Proof.
  intros Hconv Hstack Hnd Hlt Hnode.
  eapply convertNode_enough_fuel; try done. lia.
Qed.

End Termination.

(** ** Strings *)

Lemma startsWith_app needle after : JsString.startsWith needle (needle +:+ after) = true.
Proof.
  induction needle as [|c needle IH]; simpl; [done|]. by rewrite decide_True.
Qed.

Lemma indexOf_range needle s :
  JsString.indexOf needle s = -1 \/ 0 <= JsString.indexOf needle s.
Proof.
  induction s as [|c s IH]; simpl.
  - destruct (JsString.startsWith needle ""); [right; lia | by left].
  - destruct (JsString.startsWith needle (String c s)); [right; lia|].
    destruct (JsString.indexOf needle s =? -1) eqn:E; [by left|].
    apply Z.eqb_neq in E. right. lia.
Qed.

(** [indexOf] finds a part that is there. *)
Lemma indexOf_found needle before after :
  0 <= JsString.indexOf needle (before +:+ needle +:+ after).
Proof.
  induction before as [|c before IH]; simpl.
  - destruct (needle +:+ after) as [|c s] eqn:E.
    + simpl. pose proof (startsWith_app needle after) as H. rewrite E in H.
      by rewrite H.
    + simpl. pose proof (startsWith_app needle after) as H. rewrite E in H.
      by rewrite H.
  - destruct (JsString.startsWith needle _); [done|].
    destruct (JsString.indexOf needle _ =? -1) eqn:E; [|lia].
    apply Z.eqb_eq in E. lia.
Qed.

Lemma toLowerCase_app a b :
  JsString.toLowerCase (a +:+ b) = JsString.toLowerCase a +:+ JsString.toLowerCase b.
Proof. induction a as [|c a IH]; simpl; [done | by rewrite IH]. Qed.

(** ** The kind override *)

Section KindOverride.
Variable host : Host.

Lemma foldl_setKind (test : ModelType -> bool) (types : list ModelType) :
  forall r,
    let r' := foldl (fun r type => if test type then setKind CoveoComponent r else r)
                    r types in
    isDeclarationReflection r' = isDeclarationReflection r /\
    extendedTypes r' = extendedTypes r /\
    implementedTypes r' = implementedTypes r /\
    (kind r = CoveoComponent -> kind r' = CoveoComponent) /\
    (forall type, type ∈ types -> test type = true -> kind r' = CoveoComponent).
Proof.
  induction types as [|t types IH]; intros r; simpl.
  - repeat split; try done. intros type Hin. by apply elem_of_nil in Hin.
  - destruct (IH (if test t then setKind CoveoComponent r else r))
      as (H1 & H2 & H3 & H4 & H5).
    repeat split.
    + rewrite H1. by destruct (test t).
    + rewrite H2. by destruct (test t).
    + rewrite H3. by destruct (test t).
    + intros Hk. apply H4. by destruct (test t).
    + intros type [->|Hin]%elem_of_cons Htest; [|by eapply H5].
      apply H4. by rewrite Htest.
Qed.

Lemma overrideKind_fields r :
  isDeclarationReflection (overrideKind r) = isDeclarationReflection r /\
  extendedTypes (overrideKind r) = extendedTypes r /\
  implementedTypes (overrideKind r) = implementedTypes r.
Proof.
  unfold overrideKind. destruct (isDeclarationReflection r) eqn:Hd; [|done].
  destruct (extendedTypes r) as [types|] eqn:He.
  - destruct (foldl_setKind
                (fun type => String.eqb (JsString.toLowerCase (toString type)) "component")
                types r) as (H1 & H2 & H3 & _).
    simpl in H1, H2, H3. rewrite H3.
    destruct (implementedTypes r) as [impls|] eqn:Hi.
    + destruct (foldl_setKind
                  (fun impl => 0 <=? JsString.indexOf "icomponentbindings"
                                       (JsString.toLowerCase (toString impl)))
                  impls
                  (foldl (fun r type =>
                            if String.eqb (JsString.toLowerCase (toString type)) "component"
                            then setKind CoveoComponent r else r) r types))
        as (G1 & G2 & G3 & _).
      simpl in G1, G2, G3. rewrite G1, G2, G3. repeat split; congruence.
    + repeat split; congruence.
  - destruct (implementedTypes r) as [impls|] eqn:Hi; [|done].
    destruct (foldl_setKind
                (fun impl => 0 <=? JsString.indexOf "icomponentbindings"
                                     (JsString.toLowerCase (toString impl)))
                impls r) as (G1 & G2 & G3 & _).
    simpl in G1, G2, G3. rewrite G1, G2, G3. repeat split; congruence.
Qed.

Lemma overrideKind_extended r types type :
  isDeclarationReflection r = true ->
  extendedTypes r = Some types -> type ∈ types ->
  JsString.toLowerCase (toString type) = "component" ->
  kind (overrideKind r) = CoveoComponent.
Proof.
  intros Hd He Hin Hname. unfold overrideKind. rewrite Hd, He.
  destruct (foldl_setKind
              (fun type => String.eqb (JsString.toLowerCase (toString type)) "component")
              types r) as (_ & _ & H3 & _ & H5).
  simpl in H3, H5.
  assert (kind (foldl (fun r type =>
                         if String.eqb (JsString.toLowerCase (toString type)) "component"
                         then setKind CoveoComponent r else r) r types)
          = CoveoComponent) as Hk.
  { apply (H5 type Hin). by apply String.eqb_eq. }
  destruct (implementedTypes _) as [impls|]; [|done].
  by apply foldl_setKind.
Qed.

Lemma overrideKind_implemented r impls impl :
  isDeclarationReflection r = true ->
  implementedTypes r = Some impls -> impl ∈ impls ->
  0 <= JsString.indexOf "icomponentbindings" (JsString.toLowerCase (toString impl)) ->
  kind (overrideKind r) = CoveoComponent.
Proof.
  intros Hd Hi Hin Hname. unfold overrideKind. rewrite Hd.
  assert (implementedTypes
            match extendedTypes r with
            | Some types =>
                foldl (fun r type =>
                         if String.eqb (JsString.toLowerCase (toString type)) "component"
                         then setKind CoveoComponent r else r) r types
            | None => r
            end = Some impls) as ->.
  { destruct (extendedTypes r) as [types|]; [|done].
    destruct (foldl_setKind
                (fun type => String.eqb (JsString.toLowerCase (toString type)) "component")
                types r) as (_ & _ & H3 & _).
    simpl in H3. congruence. }
  apply foldl_setKind with (type := impl); [done|]. by apply Z.leb_le.
Qed.

(** A reflection that [convertNode] returns went through the kind
    override last. *)
Lemma postProcess_Some node result w r w' :
  postProcess host node result w = Ok (Some r) w' -> exists r2, r = overrideKind r2.
Proof.
  unfold postProcess. destruct result as [refl|]; [|unfold ret; congruence].
  intros (r1 & w1 & _ & H2)%bind_Ok. unfold ret in H2. injection H2 as <- _.
  by eexists.
Qed.

Lemma convertNode_Some fuel cv node w r w' :
  convertNode host fuel cv node w = Ok (Some r) w' -> exists r2, r = overrideKind r2.
Proof.
  destruct fuel as [|fuel]; [done|]. intros H.
  destruct (nodeArrays w !! visitStack (ctx w)) as [stack|] eqn:Hstack.
  - rewrite (convertNode_unfold _ _ _ _ _ _ Hstack) in H.
    destruct (negb _); [done|].
    destruct (callNodeConverter _ _ _ _ _) as [result w1| |]; try done.
    by eapply postProcess_Some.
  - simpl in H. unfold bind at 1, getContext in H.
    unfold bind at 1, readNodeArray in H. by rewrite Hstack in H.
Qed.

(** C9: a declaration reflection that [convertNode] returns has the kind
    of a component as soon as one of its extended types renders as
    [component] up to the case of the letters, or one of its implemented
    types renders with [icomponentbindings] in it, up to the case of the
    letters.  Only the renderings of the types are read. *)
Theorem component_kind_override fuel cv node w r w' :
  convertNode host fuel cv node w = Ok (Some r) w' ->
  isDeclarationReflection r = true ->
  (exists types type,
      extendedTypes r = Some types /\ type ∈ types /\
      equalsIgnoreCase (toString type) "component") \/
  (exists impls impl,
      implementedTypes r = Some impls /\ impl ∈ impls /\
      containsIgnoreCase "icomponentbindings" (toString impl)) ->
  kind r = CoveoComponent.
Proof.
  intros [r2 ->]%convertNode_Some Hd Hnames.
  destruct (overrideKind_fields r2) as (Fd & Fe & Fi).
  rewrite Fd in Hd. rewrite Fe, Fi in Hnames.
  destruct Hnames as [(types & type & He & Hin & Heq)|(impls & impl & Hi & Hin & Hc)].
  - by eapply overrideKind_extended.
  - eapply overrideKind_implemented; [done..|].
    destruct Hc as (before & part & after & -> & Hpart).
    rewrite !toLowerCase_app, Hpart. apply indexOf_found.
Qed.

End KindOverride.

(** ** [convert] *)

Section Convert.
Variable host : Host.

(** [convert] up to the call of [compile]. *)
Lemma convert_unfold fuel cv (l : Loc) (a : list string) w :
  stringArrays w !! l = Some a ->
  convert host fuel cv l w =
  match compile host fuel cv (beginWorld host l a w) with
  | Ok errors w1 =>
      Ok {| errors := errors; projectReflection := project (ctx w1) |}
         (logged (closingEvents (project (ctx w1))) w1)
  | Throw e => Throw e
  | OutOfFuel => OutOfFuel
  end.
Proof.
  intros Ha. unfold convert.
  rewrite (bind_step _ _ _ _ _ (normalizeFileNames_run host l a w Ha)).
  assert (l < length (stringArrays w))%nat as Hl by (by eapply lookup_lt_Some).
  unfold bind at 1, readStringArray. simpl. rewrite list_lookup_insert_eq by done.
  unfold bind at 1, emit. unfold bind at 1, newContext.
  unfold bind at 1, trigger, emit. simpl.
  match goal with
  | |- bind _ _ ?w0 = _ => replace w0 with (beginWorld host l a w)
  end.
  2:{ unfold beginWorld, logged, setContext, setNodeArrays, setStringArrays. simpl.
      by rewrite <- app_assoc. }
  unfold bind at 1.
  destruct (compile host fuel cv (beginWorld host l a w)) as [errs w1| |]; try done.
  unfold bind at 1. rewrite resolve_run. unfold bind, emit, ret.
  rewrite logged_logged. unfold closingEvents. by rewrite <- !app_assoc.
Qed.

(** C1 (as amended): the path preparation of [convert] overwrites the
    array it is given with the normalized paths, one for each path of the
    input and in the order of the input; a path that occurs twice, or two
    paths with the same normal form, are kept twice. *)
Theorem normalizeFileNames_maps (l : Loc) (a : list string) w :
  stringArrays w !! l = Some a ->
  exists w',
    normalizeFileNames host l w = Ok tt w' /\
    stringArrays w' !! l = Some (map (normalized host) a) /\
    length (map (normalized host) a) = length a /\
    forall i fileName,
      a !! i = Some fileName ->
      map (normalized host) a !! i = Some (normalized host fileName).
Proof.
  intros Ha. eexists. split; [by apply normalizeFileNames_run|].
  split; [|split].
  - simpl. apply list_lookup_insert_eq. by eapply lookup_lt_Some.
  - apply length_map.
  - intros i fileName Hi. by rewrite list_lookup_fmap, Hi.
Qed.

(** What [convert] does once the source files are converted. *)
Lemma convert_run fuel cv (l : Loc) (a : list string) w w1 :
  stringArrays w !! l = Some a ->
  convertSourceFiles host fuel cv (beginWorld host l a w) = Ok tt w1 ->
  let p := createProgram host (map (normalized host) a) in
  convert host fuel cv l w =
  Ok {| errors := (pipeline p allPhases).2; projectReflection := project (ctx w1) |}
     (logged (map EvDiagnostics (pipeline p allPhases).1
                ++ closingEvents (project (ctx w1))) w1).
Proof.
  intros Ha Hsrc p. rewrite (convert_unfold _ _ _ _ _ Ha).
  rewrite (compile_pipeline _ _ _ _ _ Hsrc).
  cbn [ctx logged beginWorld program]. fold p. by rewrite logged_logged.
Qed.

(** A node that is not being visited and whose kind has a node converter
    is handed to that converter, before anything else is called. *)
Lemma convertNode_logs_call fuel cv node w (stack : list Node) c r w' :
  nodeArrays w !! visitStack (ctx w) = Some stack ->
  node ∉ stack ->
  nodeConverters cv !! nodeKind host node = Some c ->
  convertNode host fuel cv node w = Ok r w' ->
  exists es, log w' = log w ++ EvConvert c node :: es /\ Forall isConvertEvent es.
Proof.
  intros Hstack Hnode Hc H. destruct fuel as [|fuel]; [done|].
  rewrite (convertNode_unfold _ _ _ _ _ _ Hstack) in H.
  rewrite (proj2 (arrayIndexOf_absent node stack) Hnode) in H. simpl in H.
  destruct (callNodeConverter _ _ _ _ _) as [result w1| |] eqn:Hcall; try done.
  apply postProcess_world in H as ->.
  unfold callNodeConverter in Hcall. rewrite Hc in Hcall.
  apply bind_Ok in Hcall as ([] & w0 & H1 & H2). unfold emit in H1. injection H1 as <-.
  apply runPlugin_footprint in H2 as [_ _ _ _ _ (es & Hlog & Hes)];
    [|apply convertNode_footprint].
  exists es. split; [|done]. simpl in *. rewrite Hlog. by rewrite <- app_assoc.
Qed.

(** The loop of [compile] over the source files is the traversal of the
    specification. *)
Lemma traversal_forEach fuel cv sourceFiles w w' :
  traversal host fuel cv sourceFiles w w' <->
  forEach (fun sourceFile =>
             fixFileName host sourceFile ;;;
             convertNode host fuel cv sourceFile ;;;
             ret tt) sourceFiles w = Ok tt w'.
Proof.
  split.
  - induction 1 as [w|sourceFile later w afterFix result afterConvert w' Hfix Hconv _ IH];
      simpl; [done|].
    unfold bind at 1. unfold bind at 1. rewrite Hfix.
    unfold bind at 1. rewrite Hconv. unfold ret at 1. exact IH.
  - revert w. induction sourceFiles as [|sourceFile later IH]; simpl; intros w H.
    + injection H as <-. constructor.
    + apply bind_Ok in H as ([] & w1 & H1 & H2).
      apply bind_Ok in H1 as ([] & afterFix & Hfix & H1).
      apply bind_Ok in H1 as (result & afterConvert & Hconv & H1).
      injection H1 as <-. econstructor; eauto.
Qed.

Lemma traversal_convertSourceFiles fuel cv w w' :
  traversal host fuel cv (getSourceFiles (program (ctx w))) w w' <->
  convertSourceFiles host fuel cv w = Ok tt w'.
Proof. by rewrite traversal_forEach. Qed.

(** A traversal that starts with an empty visit stack adds calls of node
    converters only, among them, in order, one for each source file whose
    kind has a converter. *)
Lemma traversal_calls fuel cv sourceFiles w w' :
  traversal host fuel cv sourceFiles w w' ->
  nodeArrays w !! visitStack (ctx w) = Some [] ->
  exists es,
    log w' = log w ++ es /\ Forall isConvertEvent es /\
    sourceFileCalls host cv sourceFiles `sublist_of` es.
Proof.
  induction 1 as [w|sourceFile later w afterFix result afterConvert w' Hfix Hconv _ IH];
    intros Hstack.
  - exists []. by rewrite app_nil_r.
  - pose proof (fixFileName_footprint _ _ _ _ Hfix) as [Hv1 _ _ Ha1 _ (es1 & Hl1 & Hes1)].
    assert (nodeArrays afterFix !! visitStack (ctx afterFix) = Some []) as Hstack1.
    { rewrite Hv1. by apply Ha1. }
    pose proof (convertNode_footprint _ _ _ _ _ _ _ Hconv)
      as [Hv2 _ _ Ha2 _ (es2 & Hl2 & Hes2)].
    assert (nodeArrays afterConvert !! visitStack (ctx afterConvert) = Some []) as Hstack2.
    { rewrite Hv2. by apply Ha2. }
    destruct (IH Hstack2) as (es3 & Hl3 & Hes3 & Hsub).
    unfold sourceFileCalls in *. cbn [omap list_omap].
    destruct (nodeConverters cv !! nodeKind host sourceFile) as [c|] eqn:Hc.
    + destruct (convertNode_logs_call _ _ _ _ _ _ _ _ Hstack1 (not_elem_of_nil _) Hc Hconv)
        as (es2' & Hl2' & Hes2').
      exists (es1 ++ EvConvert c sourceFile :: es2' ++ es3). split; [|split].
      * rewrite Hl3, Hl2', Hl1. by rewrite <- !app_assoc.
      * apply Forall_app. split; [done|]. constructor; [done|]. by apply Forall_app.
      * apply sublist_inserts_l, sublist_skip. by apply sublist_inserts_l.
    + exists (es1 ++ es2 ++ es3). split; [|split].
      * rewrite Hl3, Hl2, Hl1. by rewrite <- !app_assoc.
      * by rewrite !Forall_app.
      * by do 2 apply sublist_inserts_l.
Qed.

(** C8: [convert] fires the begin event, then runs the traversal over
    the source files of the program, each of which it hands to the node
    converter of its kind, then asks for the diagnostics, then runs the
    resolve pass over the reflections that the traversal left in the
    project, then fires the end event; this is so whatever the diagnostics
    are, and the result holds the diagnostics of the pipeline and the
    project.  [w1] is the world that the traversal leaves; the subscribers
    of the events are outside the converter and taken to return. *)
Theorem convert_lifecycle fuel cv (l : Loc) (a : list string) w w1 :
  stringArrays w !! l = Some a ->
  traversal host fuel cv
            (getSourceFiles (createProgram host (map (normalized host) a)))
            (beginWorld host l a w) w1 ->
  exists res w' converted asked,
    convert host fuel cv l w = Ok res w' /\
    w' = logged (map EvDiagnostics asked ++ closingEvents (project (ctx w1))) w1 /\
    log w1 =
      log w ++ [EvCreateProgram (map (normalized host) a); EvTrigger EVENT_BEGIN None]
            ++ converted /\
    log w' =
      log w ++ [EvCreateProgram (map (normalized host) a); EvTrigger EVENT_BEGIN None]
            ++ converted ++ map EvDiagnostics asked
            ++ [EvTrigger EVENT_RESOLVE_BEGIN None]
            ++ map resolveEvent (projectReflection res)
            ++ [EvTrigger EVENT_RESOLVE_END None; EvTrigger EVENT_END None] /\
    Forall isConvertEvent converted /\
    sourceFileCalls host cv (getSourceFiles (createProgram host (map (normalized host) a)))
      `sublist_of` converted /\
    (asked, errors res) = pipeline (createProgram host (map (normalized host) a)) allPhases /\
    projectReflection res = project (ctx w1).
Proof.
  intros Ha Htraversal.
  pose proof (proj1 (traversal_convertSourceFiles fuel cv (beginWorld host l a w) w1)
                Htraversal) as Hsrc.
  pose proof (convert_run _ _ _ _ _ _ Ha Hsrc) as Hrun. cbv zeta in Hrun.
  set (pl := pipeline (createProgram host (map (normalized host) a)) allPhases) in *.
  destruct (traversal_calls _ _ _ _ _ Htraversal) as (es & Hlog & Hes & Hsub).
  { cbn [beginWorld nodeArrays ctx visitStack]. apply lookup_snoc_length. }
  eexists _, _, es, pl.1. split; [exact Hrun|].
  cbn [log logged errors projectReflection ctx]. rewrite Hlog.
  cbn [beginWorld log]. unfold closingEvents.
  split_and!; try done.
  - by rewrite <- !app_assoc.
  - by rewrite <- !app_assoc.
  - by destruct pl.
Qed.

(** C10: when the conversion of the source files returns, [convert]
    returns and has overwritten the array of the caller: the array at the
    address it was given holds the normalized paths, index by index; the
    program was created from them, after they were written, and the
    context holds the same array. *)
Theorem convert_overwrites_fileNames fuel cv (l : Loc) (a : list string) w w1 :
  stringArrays w !! l = Some a ->
  convertSourceFiles host fuel cv (beginWorld host l a w) = Ok tt w1 ->
  exists res w' later,
    convert host fuel cv l w = Ok res w' /\
    stringArrays w' !! l = Some (map (normalized host) a) /\
    (forall i fileName,
       a !! i = Some fileName ->
       exists files, stringArrays w' !! l = Some files /\
                     files !! i = Some (normalized host fileName)) /\
    fileNames (ctx w') = l /\
    program (ctx w') = createProgram host (map (normalized host) a) /\
    log w' = log w ++ EvCreateProgram (map (normalized host) a) :: later.
Proof.
  intros Ha Hsrc. pose proof (convert_run _ _ _ _ _ _ Ha Hsrc) as Hrun.
  cbv zeta in Hrun.
  set (pl := pipeline (createProgram host (map (normalized host) a)) allPhases) in *.
  apply convertSourceFiles_footprint in Hsrc as [_ Hf Hp _ Hs (es & Hlog & _)].
  assert (<[l := map (normalized host) a]> (stringArrays w) !! l
          = Some (map (normalized host) a)) as Hread.
  { apply list_lookup_insert_eq. by eapply lookup_lt_Some. }
  eexists _, _, _. split; [exact Hrun|].
  cbn [log logged ctx stringArrays]. rewrite Hs, Hf, Hp, Hlog.
  cbn [beginWorld log ctx stringArrays fileNames program].
  split; [done|]. split; [|split; [done|split; [done|]]].
  - intros i fileName Hi. eexists. split; [exact Hread|].
    by rewrite list_lookup_fmap, Hi.
  - rewrite <- !app_assoc. simpl. done.
Qed.

End Convert.

(** ** The small project *)

Example exec_two_features :
  TagRegex.exec "Text @notSupportedIn IE, Firefox more" = Some "IE, Firefox".
Proof. reflexivity. Qed.

Example exec_backtracks : TagRegex.exec "@notSupportedIn IE, -" = Some "IE".
Proof. reflexivity. Qed.

Example exec_no_word : TagRegex.exec "see @notSupportedIn ." = None.
Proof. reflexivity. Qed.

Example replace_two_features :
  TagRegex.replace "Text @notSupportedIn IE, Firefox more" = "Text  more".
Proof. reflexivity. Qed.

Example split_two_features : TagRegex.split "IE, Firefox" = ["IE"; "Firefox"].
Proof. reflexivity. Qed.

(** A no-break space after the marker is white space to the pattern. *)
Example exec_no_break_space :
  TagRegex.exec ("@notSupportedIn" +:+ String (ascii_of_nat 160) "IE") = Some "IE".
Proof. reflexivity. Qed.

Example toLowerCase_capitals :
  JsString.toLowerCase ("IComponent" +:+ String (ascii_of_nat 201) "")
  = "icomponent" +:+ String (ascii_of_nat 233) "".
Proof. reflexivity. Qed.

Example demo_priority_lists :
  typeNodeConverters Demo.converter = [12; 10]%nat /\
  typeTypeConverters Demo.converter = [12; 11; 13]%nat.
Proof. split; reflexivity. Qed.

(** C2: the comment of the node is the marker alone, the node converter
    returns a reflection, the pattern finds no match, and [convertNode]
    throws on reading element 1 of the missing match. *)
Theorem convertNode_missing_match_throws :
  getRawComment Demo.host Demo.brokenNode = Some "@notSupportedIn" /\
  JsString.indexOf "@notSupportedIn" "@notSupportedIn" = 0 /\
  TagRegex.exec "@notSupportedIn" = None /\
  convertNode Demo.host 5 Demo.converter Demo.brokenNode Demo.world =
  Throw (TypeError "Cannot read property '1' of null").
Proof. repeat split; vm_compute; reflexivity. Qed.

(** C6, as it was stated: eleven type-driven converters without a
    priority are registered one after the other on V8 before version 7.0.
    The first ten stand in the order of their registration; the sort that
    follows the eleventh [push] leaves the sixth first, the first second
    and the second sixth, so that the converters of priority 0 are no
    longer in the order of their registration.  The list is sorted all
    the same. *)
Lemma priority_ties_not_in_registration_order :
  typeTypeConverters (applyOps Demo.v8Host (take 10 Demo.elevenRegistrations))
  = [0; 1; 2; 3; 4; 5; 6; 7; 8; 9]%nat /\
  registrationOrder (hasTypeRole Demo.v8Host) Demo.elevenRegistrations
  = [0; 1; 2; 3; 4; 5; 6; 7; 8; 9; 10]%nat /\
  typeTypeConverters (applyOps Demo.v8Host Demo.elevenRegistrations)
  = [5; 0; 2; 3; 4; 1; 6; 7; 8; 9; 10]%nat /\
  Forall (fun c => priorityOf Demo.v8Host c = 0)
         (typeTypeConverters (applyOps Demo.v8Host Demo.elevenRegistrations)) /\
  ~ (forall p,
       withPriority Demo.v8Host p
         (typeTypeConverters (applyOps Demo.v8Host Demo.elevenRegistrations))
       = withPriority Demo.v8Host p
           (registrationOrder (hasTypeRole Demo.v8Host) Demo.elevenRegistrations)).
Proof.
  split; [reflexivity|]. split; [reflexivity|]. split; [reflexivity|].
  split; [vm_compute; repeat constructor|].
  intros H. specialize (H 0). vm_compute in H. discriminate H.
Qed.

Lemma priority_lists_sorted_witness :
  stableSort Demo.host /\
  (forall p,
     withPriority Demo.host p (typeNodeConverters (applyOps Demo.host Demo.registrations))
     = withPriority Demo.host p
         (registrationOrder (hasNodeRole Demo.host) Demo.registrations)) /\
  (forall p,
     withPriority Demo.host p (typeTypeConverters (applyOps Demo.host Demo.registrations))
     = withPriority Demo.host p
         (registrationOrder (hasTypeRole Demo.host) Demo.registrations)).
Proof.
  assert (stableSort Demo.host) as Hstable by (intros array x y; reflexivity).
  split; [exact Hstable|].
  exact (proj2 (proj2 (proj2 (proj2 (priority_lists_sorted Demo.host Demo.registrations))))
           Hstable).
Defined.

(** C1, as it was stated: the two paths of the input have one normal
    form, and the prepared list holds it twice. *)
Lemma normalizeFileNames_keeps_duplicates :
  exists w',
    normalizeFileNames Demo.host 0%nat Demo.world = Ok tt w' /\
    stringArrays w' !! 0%nat = Some ["src/a.ts"; "src/a.ts"] /\
    ~ NoDup ["src/a.ts"; "src/a.ts"].
Proof.
  eexists. split; [vm_compute; reflexivity|]. split; [reflexivity|].
  intros [Hnotin _]%NoDup_cons. apply Hnotin. left.
Qed.

Lemma normalizeFileNames_maps_witness :
  exists w',
    normalizeFileNames Demo.host 0%nat Demo.world = Ok tt w' /\
    stringArrays w' !! 0%nat = Some (map (normalized Demo.host) ["src\a.ts"; "src/a.ts"]) /\
    length (map (normalized Demo.host) ["src\a.ts"; "src/a.ts"]) = 2%nat /\
    forall i fileName,
      ["src\a.ts"; "src/a.ts"] !! i = Some fileName ->
      map (normalized Demo.host) ["src\a.ts"; "src/a.ts"] !! i
      = Some (normalized Demo.host fileName).
Proof.
  exact (normalizeFileNames_maps Demo.host 0%nat ["src\a.ts"; "src/a.ts"] Demo.world eq_refl).
Defined.

Lemma compile_short_circuits_witness :
  exists w1,
    convertSourceFiles Demo.host 5 Demo.converter Demo.world = Ok tt w1 /\
    compile Demo.host 5 Demo.converter Demo.world =
    Ok [Demo.semanticError]
       (logged [EvDiagnostics OptionsPhase; EvDiagnostics SyntacticPhase;
                EvDiagnostics GlobalPhase; EvDiagnostics SemanticPhase] w1).
Proof.
  assert (exists w1, convertSourceFiles Demo.host 5 Demo.converter Demo.world = Ok tt w1)
    as [w1 E] by (vm_compute; eauto).
  exists w1. split; [exact E|].
  destruct (compile_short_circuits Demo.host 5 Demo.converter Demo.world w1 E)
    as (_ & _ & _ & Hsemantic & _).
  apply Hsemantic; done.
Defined.

Lemma convertType_first_match_witness :
  convertType Demo.host Demo.converter (Some Demo.classNode) None Demo.world =
  Ok (Some {| typeId := 1; toString := "class" |})
     (logged [EvGetTypeAtLocation 1%nat; EvSupportsNode 12%nat; EvSupportsNode 10%nat;
              EvConvertNode 10%nat] Demo.world) /\
  convertType Demo.host Demo.converter (Some Demo.brokenNode) None Demo.world =
  Ok (Some {| typeId := 3; toString := "any" |})
     (logged [EvGetTypeAtLocation 3%nat; EvSupportsNode 12%nat; EvSupportsNode 10%nat;
              EvSupportsType 12%nat; EvSupportsType 11%nat; EvConvertType 11%nat]
             Demo.world) /\
  exists w', convertType Demo.host Demo.converter (Some Demo.unsupportedNode) None Demo.world
             = Ok None w'.
Proof.
  destruct (convertType_first_match Demo.host Demo.converter Demo.world)
    as (Hnode & Htype & _ & Hnone & _).
  split; [|split].
  - apply (Hnode Demo.classNode None [12%nat] 10%nat []); [done| |].
    + constructor; [|constructor]. by eexists _, _.
    + by eexists _, _.
  - apply (Htype Demo.brokenNode None 3%nat [12%nat] 11%nat [13%nat]); try done.
    + repeat constructor; by eexists _, _.
    + constructor; [|constructor]. by eexists _, _.
    + by eexists _, _.
  - apply Hnone; [|done]. repeat constructor; by eexists _, _.
Defined.

Lemma convertNode_traversal_gaps_witness :
  convertNode Demo.host 1 Demo.converter Demo.classNode Demo.worldInClass
  = Ok None Demo.worldInClass /\
  exists w',
    convertNode Demo.host 1 Demo.converter Demo.unsupportedNode Demo.world = Ok None w' /\
    ctx w' = ctx Demo.world /\ log w' = log Demo.world.
Proof.
  split.
  - apply (convertNode_traversal_gaps Demo.host 0 Demo.converter Demo.classNode
             Demo.worldInClass [Demo.sourceFile; Demo.classNode] eq_refl).
    right. left.
  - apply (convertNode_traversal_gaps Demo.host 0 Demo.converter Demo.unsupportedNode
             Demo.world [] eq_refl).
    + apply not_elem_of_nil.
    + vm_compute. reflexivity.
Defined.

Lemma convertNode_restores_visitStack_witness :
  exists r w',
    convertNode Demo.host 5 Demo.converter Demo.sourceFile Demo.world = Ok r w' /\
    visitStack (ctx w') = visitStack (ctx Demo.world) /\
    nodeArrays w' !! visitStack (ctx w') =
    nodeArrays Demo.world !! visitStack (ctx Demo.world) /\
    (forall (l : Loc) (a : list Node),
       nodeArrays Demo.world !! l = Some a -> nodeArrays w' !! l = Some a).
Proof.
  assert (exists r w',
             convertNode Demo.host 5 Demo.converter Demo.sourceFile Demo.world = Ok r w')
    as (r & w' & E) by (vm_compute; eauto).
  exists r, w'. split; [exact E|].
  exact (convertNode_restores_visitStack Demo.host 5 Demo.converter Demo.sourceFile
           Demo.world r w' E).
Defined.

Lemma component_kind_override_witness :
  exists r w',
    convertNode Demo.host 5 Demo.converter Demo.classNode Demo.world = Ok (Some r) w' /\
    kind r = CoveoComponent.
Proof.
  assert (exists r w',
             convertNode Demo.host 5 Demo.converter Demo.classNode Demo.world
             = Ok (Some r) w' /\
             isDeclarationReflection r = true /\
             extendedTypes r = Some [{| typeId := 7; toString := "Component" |}])
    as (r & w' & E & Hd & He) by (vm_compute; eauto 10).
  exists r, w'. split; [exact E|].
  apply (component_kind_override Demo.host 5 Demo.converter Demo.classNode
           Demo.world r w' E Hd).
  left. eexists _, _. split; [exact He|]. split; [left | reflexivity].
Defined.

Lemma convert_lifecycle_witness :
  exists w1,
    traversal Demo.host 5 Demo.converter
              (getSourceFiles
                 (createProgram Demo.host (map (normalized Demo.host) ["src\a.ts"; "src/a.ts"])))
              (beginWorld Demo.host 0%nat ["src\a.ts"; "src/a.ts"] Demo.world) w1 /\
    exists res w' converted asked,
      convert Demo.host 5 Demo.converter 0%nat Demo.world = Ok res w' /\
      w' = logged (map EvDiagnostics asked ++ closingEvents (project (ctx w1))) w1 /\
      log w1 =
        log Demo.world
            ++ [EvCreateProgram (map (normalized Demo.host) ["src\a.ts"; "src/a.ts"]);
                EvTrigger EVENT_BEGIN None]
            ++ converted /\
      log w' =
        log Demo.world
            ++ [EvCreateProgram (map (normalized Demo.host) ["src\a.ts"; "src/a.ts"]);
                EvTrigger EVENT_BEGIN None]
            ++ converted ++ map EvDiagnostics asked
            ++ [EvTrigger EVENT_RESOLVE_BEGIN None]
            ++ map resolveEvent (projectReflection res)
            ++ [EvTrigger EVENT_RESOLVE_END None; EvTrigger EVENT_END None] /\
      Forall isConvertEvent converted /\
      sourceFileCalls Demo.host Demo.converter
        (getSourceFiles
           (createProgram Demo.host (map (normalized Demo.host) ["src\a.ts"; "src/a.ts"])))
        `sublist_of` converted /\
      (asked, errors res) =
        pipeline (createProgram Demo.host (map (normalized Demo.host) ["src\a.ts"; "src/a.ts"]))
                 allPhases /\
      projectReflection res = project (ctx w1).
Proof.
  assert (exists w1,
             convertSourceFiles Demo.host 5 Demo.converter
               (beginWorld Demo.host 0%nat ["src\a.ts"; "src/a.ts"] Demo.world) = Ok tt w1)
    as [w1 E] by (vm_compute; eauto).
  apply traversal_convertSourceFiles in E.
  exists w1. split; [exact E|].
  exact (convert_lifecycle Demo.host 5 Demo.converter 0%nat ["src\a.ts"; "src/a.ts"]
           Demo.world w1 eq_refl E).
Defined.

Lemma convert_overwrites_fileNames_witness :
  exists res w' later,
    convert Demo.host 5 Demo.converter 0%nat Demo.world = Ok res w' /\
    stringArrays w' !! 0%nat = Some (map (normalized Demo.host) ["src\a.ts"; "src/a.ts"]) /\
    (forall i fileName,
       ["src\a.ts"; "src/a.ts"] !! i = Some fileName ->
       exists files, stringArrays w' !! 0%nat = Some files /\
                     files !! i = Some (normalized Demo.host fileName)) /\
    fileNames (ctx w') = 0%nat /\
    program (ctx w') =
      createProgram Demo.host (map (normalized Demo.host) ["src\a.ts"; "src/a.ts"]) /\
    log w' = log Demo.world
               ++ EvCreateProgram (map (normalized Demo.host) ["src\a.ts"; "src/a.ts"])
               :: later.
Proof.
  assert (exists w1,
             convertSourceFiles Demo.host 5 Demo.converter
               (beginWorld Demo.host 0%nat ["src\a.ts"; "src/a.ts"] Demo.world) = Ok tt w1)
    as [w1 E] by (vm_compute; eauto).
  exact (convert_overwrites_fileNames Demo.host 5 Demo.converter 0%nat
           ["src\a.ts"; "src/a.ts"] Demo.world w1 eq_refl E).
Defined.

Example demo_notSupportedIn :
  exists r w',
    convertNode Demo.host 5 Demo.converter Demo.classNode Demo.world = Ok (Some r) w' /\
    notSupportedIn r = Some ["IE"; "Firefox"] /\
    flagCoveoComponentOptions r = true /\
    (tags <$> comment r) =
    Some (Some [{| tagName := "not supported in"; paramName := "";
                   tagText := "IE, Firefox" |}]).
Proof. vm_compute. eauto 10. Qed.

Lemma addNodeConverter_replaces_witness :
  nodeConverters (addNodeConverter Demo.host 2%nat
                    (addNodeConverter Demo.host 1%nat initialize)) !! 228
  = Some 2%nat.
Proof.
  apply (addNodeConverter_replaces Demo.host 2%nat
           (addNodeConverter Demo.host 1%nat initialize) 228).
  left.
Defined.

Lemma demo_asksBelow k c n :
  nodeConverters Demo.converter !! k = Some c -> (n < 4)%nat ->
  asksBelow 4 (convert_ (nodeComponent Demo.host c) n).
Proof.
  intros _ Hn. destruct c as [|[|c]]; simpl.
  - apply asksBelow_ConvertChild; [unfold Demo.classNode; lia|]. intros _.
    apply asksBelow_ConvertChild; [unfold Demo.unsupportedNode; lia|]. intros _.
    constructor.
  - apply asksBelow_RegisterReflection, asksBelow_ConvertChild; [done|].
    intros _. constructor.
  - constructor.
Defined.

Lemma convertNode_terminates_witness :
  terminated (convertNode Demo.host 5 Demo.converter Demo.sourceFile Demo.world).
Proof.
  apply (convertNode_terminates Demo.host 4 Demo.converter Demo.sourceFile Demo.world []).
  - exact demo_asksBelow.
  - reflexivity.
  - apply NoDup_nil_2.
  - intros x Hx. by apply elem_of_nil in Hx.
  - unfold Demo.sourceFile. lia.
Defined.

(** * More about the registry *)

Section RegistryMore.
Variable host : Host.

Lemma withPriority_elem p (x : ComponentRef) l :
  x ∈ withPriority host p l <-> x ∈ l /\ priorityOf host x = p.
Proof. unfold withPriority. by rewrite list_elem_of_filter, (comm and). Qed.

Lemma withPriority_cons_eq (x : ComponentRef) l :
  withPriority host (priorityOf host x) (x :: l)
  = x :: withPriority host (priorityOf host x) l.
Proof. unfold withPriority. by rewrite filter_cons, decide_True. Qed.

(** A list sorted by descending priority is determined by the converters
    it holds at each priority, in their order. *)
Lemma sorted_stable_unique (l1 : list ComponentRef) :
  forall l2,
    StronglySorted (descending host) l1 ->
    StronglySorted (descending host) l2 ->
    (forall p, withPriority host p l1 = withPriority host p l2) ->
    l1 = l2.
Proof.
  induction l1 as [|x l1 IH]; intros l2 H1 H2 Hsame.
  - destruct l2 as [|y l2]; [done|].
    specialize (Hsame (priorityOf host y)). by rewrite withPriority_cons_eq in Hsame.
  - destruct l2 as [|y l2].
    { specialize (Hsame (priorityOf host x)). by rewrite withPriority_cons_eq in Hsame. }
    apply StronglySorted_inv in H1 as [H1 Hx]. apply StronglySorted_inv in H2 as [H2 Hy].
    assert (priorityOf host x <= priorityOf host y) as Hxy.
    { assert (x ∈ y :: l2) as [->|Hin]%elem_of_cons; [|lia|].
      - eapply (proj1 (withPriority_elem (priorityOf host x) x (y :: l2))).
        rewrite <- Hsame, withPriority_cons_eq. left.
      - rewrite Forall_forall in Hy. apply (Hy x Hin). }
    assert (priorityOf host y <= priorityOf host x) as Hyx.
    { assert (y ∈ x :: l1) as [->|Hin]%elem_of_cons; [|lia|].
      - eapply (proj1 (withPriority_elem (priorityOf host y) y (x :: l1))).
        rewrite Hsame, withPriority_cons_eq. left.
      - rewrite Forall_forall in Hx. apply (Hx y Hin). }
    assert (priorityOf host x = priorityOf host y) as Hp by lia.
    pose proof (Hsame (priorityOf host x)) as Hhead.
    rewrite withPriority_cons_eq, Hp, withPriority_cons_eq in Hhead.
    injection Hhead as -> Htail. f_equal. apply IH; [done..|].
    intros p. destruct (decide (priorityOf host y = p)) as [<-|Hne]; [done|].
    specialize (Hsame p). unfold withPriority in *.
    by rewrite !filter_cons, !decide_False in Hsame.
Qed.

Lemma listInvariant_sort l registered :
  stableSort host ->
  listInvariant host l registered ->
  l = sort (sortTies host) (byPriority host) registered.
Proof.
  intros Hstable [Hsorted Hsame]. apply sorted_stable_unique; [done|apply sort_sorted|].
  intros p. by rewrite sort_withPriority.
Qed.

(** X3: on an engine whose sort is stable, after any sequence of
    [addTypeConverter] and [removeTypeConverter] calls on a fresh
    converter, each of the two lists is the sort, by descending priority,
    of the converters registered in its role and not removed since, taken
    in the order of their registration. *)
Theorem priority_lists_are_sorted_registrations (ops : list RegistryOp) :
  stableSort host ->
  typeNodeConverters (applyOps host ops)
  = sort (sortTies host) (byPriority host) (registrationOrder (hasNodeRole host) ops) /\
  typeTypeConverters (applyOps host ops)
  = sort (sortTies host) (byPriority host) (registrationOrder (hasTypeRole host) ops).
Proof.
  intros Hstable. destruct (registry_invariant host ops Hstable) as [Hn Ht].
  split; by apply listInvariant_sort.
Qed.

Lemma spliceOut_snoc_absent (x : ComponentRef) a : x ∉ a -> spliceOut x (a ++ [x]) = a.
Proof.
  induction a as [|y a IH]; simpl.
  - intros _. by rewrite spliceOut_cons, decide_True.
  - intros [Hxy Hx]%not_elem_of_cons.
    rewrite spliceOut_cons, decide_False by done. by rewrite IH.
Qed.

(** With a stable sort, registering a converter in a sorted list it is
    not in, then removing it, gives the list back. *)
Lemma spliceOut_sort_snoc (c : ComponentRef) l :
  stableSort host ->
  StronglySorted (descending host) l -> c ∉ l ->
  spliceOut c (sort (sortTies host) (byPriority host) (l ++ [c])) = l.
Proof.
  intros Hstable Hsorted Hc. apply sorted_stable_unique; [|done|].
  - apply spliceOut_sorted, sort_sorted.
  - intros p.
    rewrite spliceOut_withPriority, sort_withPriority, withPriority_app by done.
    destruct (decide (priorityOf host c = p)) as [Hp|Hp].
    + unfold withPriority at 2. rewrite filter_cons, decide_True by done.
      rewrite filter_nil. apply spliceOut_snoc_absent.
      rewrite withPriority_elem. by intros [? _].
    + unfold withPriority at 2. rewrite filter_cons, decide_False by done.
      by rewrite filter_nil, app_nil_r.
Qed.

(** On any engine, registering a converter in a list and removing it
    leaves a sorted list that holds what the list held. *)
Lemma spliceOut_sort_snoc_perm (c : ComponentRef) l :
  c ∉ l ->
  spliceOut c (sort (sortTies host) (byPriority host) (l ++ [c])) ≡ₚ l.
Proof.
  intros Hc. apply (Permutation_cons_inv (a := c)).
  rewrite <- spliceOut_present.
  - rewrite sort_perm. by rewrite Permutation_app_comm.
  - rewrite sort_perm. apply elem_of_app. right. left.
Qed.

(** X4: a type converter that is in neither list of a converter reached
    by registrations, once registered and then removed, leaves the node
    converters as they were and each list sorted and holding the
    converters it held; on an engine whose sort is stable it leaves the
    converter as it was. *)
Theorem register_unregister_restores (ops : list RegistryOp) (c : ComponentRef) :
  c ∉ typeNodeConverters (applyOps host ops) ->
  c ∉ typeTypeConverters (applyOps host ops) ->
  let cv := applyOps host ops in
  let cv' := applyOps host (ops ++ [Register c; Unregister c]) in
  nodeConverters cv' = nodeConverters cv /\
  StronglySorted (descending host) (typeNodeConverters cv') /\
  StronglySorted (descending host) (typeTypeConverters cv') /\
  typeNodeConverters cv' ≡ₚ typeNodeConverters cv /\
  typeTypeConverters cv' ≡ₚ typeTypeConverters cv /\
  (stableSort host -> cv' = cv).
Proof.
  intros Hn Ht. cbv zeta.
  destruct (registry_sorted host (ops ++ [Register c; Unregister c])) as [[Sn' _] [St' _]].
  split_and!; [|exact Sn'|exact St'|..]; clear Sn' St'.
  all: replace (ops ++ [Register c; Unregister c])
         with ((ops ++ [Register c]) ++ [Unregister c]) by by rewrite <- app_assoc.
  all: rewrite !applyOps_snoc; simpl.
  - done.
  - destruct (nodeRole (typeComponent host c));
      [by apply spliceOut_sort_snoc_perm | by rewrite spliceOut_absent].
  - destruct (typeRole (typeComponent host c));
      [by apply spliceOut_sort_snoc_perm | by rewrite spliceOut_absent].
  - intros Hstable.
    destruct (registry_sorted host ops) as [[Sn _] [St _]].
    destruct (applyOps host ops) as [nc tnc ttc]. simpl in *.
    unfold removeTypeConverter, addTypeConverter. simpl. f_equal.
    + destruct (nodeRole (typeComponent host c));
        [by apply spliceOut_sort_snoc | by apply spliceOut_absent].
    + destruct (typeRole (typeComponent host c));
        [by apply spliceOut_sort_snoc | by apply spliceOut_absent].
Qed.

Lemma spliceOut_first (c : ComponentRef) before after :
  c ∉ before -> spliceOut c (before ++ c :: after) = before ++ after.
Proof.
  intros Hbefore. induction before as [|y before IH]; simpl.
  - by rewrite spliceOut_cons, decide_True.
  - apply not_elem_of_cons in Hbefore as [Hcy Hbefore].
    rewrite spliceOut_cons, decide_False by done. by rewrite IH.
Qed.

(** X5: [removeTypeConverter] takes one occurrence of the converter out
    of each list that holds it, the first one, and leaves a list that does
    not hold it, and the node converters, as they are. *)
Theorem removeTypeConverter_one_occurrence (c : ComponentRef) (cv : Converter) :
  let cv' := removeTypeConverter c cv in
  nodeConverters cv' = nodeConverters cv /\
  (c ∉ typeNodeConverters cv -> typeNodeConverters cv' = typeNodeConverters cv) /\
  (c ∉ typeTypeConverters cv -> typeTypeConverters cv' = typeTypeConverters cv) /\
  (c ∈ typeNodeConverters cv -> typeNodeConverters cv ≡ₚ c :: typeNodeConverters cv') /\
  (c ∈ typeTypeConverters cv -> typeTypeConverters cv ≡ₚ c :: typeTypeConverters cv') /\
  (forall before after,
     typeNodeConverters cv = before ++ c :: after -> c ∉ before ->
     typeNodeConverters cv' = before ++ after) /\
  (forall before after,
     typeTypeConverters cv = before ++ c :: after -> c ∉ before ->
     typeTypeConverters cv' = before ++ after).
Proof.
  simpl. split; [done|].
  split; [apply spliceOut_absent|]. split; [apply spliceOut_absent|].
  split; [apply spliceOut_present|]. split; [apply spliceOut_present|].
  split; intros before after -> Hbefore; by apply spliceOut_first.
Qed.

End RegistryMore.

Section NodeRegistry.
Variable host : Host.

Lemma foldl_insert_other (c : ComponentRef) (k : Z) (kinds : list Z) :
  forall m : gmap Z ComponentRef,
    k ∉ kinds ->
    foldl (fun m supports => <[supports := c]> m) m kinds !! k = m !! k.
Proof.
  induction kinds as [|s kinds IH]; intros m Hk; simpl; [done|].
  apply not_elem_of_cons in Hk as [Hks Hk].
  rewrite IH by done. by rewrite lookup_insert_ne.
Qed.

Lemma removeNodeConverter_lookup (c : ComponentRef) (cv : Converter) (k : Z) :
  nodeConverters (removeNodeConverter c cv) !! k =
  match nodeConverters cv !! k with
  | Some c' => if decide (c' = c) then None else Some c'
  | None => None
  end.
Proof.
  unfold removeNodeConverter. simpl.
  destruct (nodeConverters cv !! k) as [c'|] eqn:Hk.
  - destruct (decide (c' = c)) as [->|Hne].
    + apply map_lookup_filter_None. right. intros x Hx. simpl. congruence.
    + apply map_lookup_filter_Some. split; [done|]. done.
  - apply map_lookup_filter_None. by left.
Qed.

(** X6: after [removeNodeConverter], the converter is registered for no
    kind, and every kind registered to another converter is registered to
    it as before; the lists of type converters are untouched. *)
Theorem removeNodeConverter_removes_all (c : ComponentRef) (cv : Converter) :
  let cv' := removeNodeConverter c cv in
  (forall k, nodeConverters cv' !! k <> Some c) /\
  (forall k c', c' <> c ->
                (nodeConverters cv' !! k = Some c' <-> nodeConverters cv !! k = Some c')) /\
  (forall k, nodeConverters cv !! k = None -> nodeConverters cv' !! k = None) /\
  typeNodeConverters cv' = typeNodeConverters cv /\
  typeTypeConverters cv' = typeTypeConverters cv.
Proof.
  cbv zeta. repeat split.
  - intros k. rewrite removeNodeConverter_lookup.
    destruct (nodeConverters cv !! k) as [c'|]; [|done].
    destruct (decide (c' = c)); congruence.
  - rewrite removeNodeConverter_lookup.
    destruct (nodeConverters cv !! k) as [c''|]; [|done].
    destruct (decide (c'' = c)); congruence.
  - intros Hk. rewrite removeNodeConverter_lookup, Hk. by rewrite decide_False.
  - intros k Hk. by rewrite removeNodeConverter_lookup, Hk.
Qed.

(** X7: registering a node converter and removing it again leaves every
    kind it supports without a converter, also a kind that another
    converter held before (that one is not put back); the other kinds are
    as if the converter had only been removed. *)
Theorem addNodeConverter_then_remove (c : ComponentRef) (cv : Converter) (k : Z) :
  nodeConverters (removeNodeConverter c (addNodeConverter host c cv)) !! k =
  if decide (k ∈ supports (nodeComponent host c)) then None
  else nodeConverters (removeNodeConverter c cv) !! k.
Proof.
  rewrite !removeNodeConverter_lookup. unfold addNodeConverter. simpl.
  destruct (decide (k ∈ supports (nodeComponent host c))) as [Hk|Hk].
  - rewrite foldl_insert_set by done. by rewrite decide_True.
  - by rewrite foldl_insert_other.
Qed.

End NodeRegistry.

(** * More about type resolution *)

Section TypeResolutionMore.
Variable host : Host.

Lemma sort_Forall (P : ComponentRef -> Prop) l :
  Forall P l -> Forall P (sort (sortTies host) (byPriority host) l).
Proof. intros Hl. by rewrite sort_perm. Qed.

Lemma spliceOut_Forall (P : ComponentRef -> Prop) x l :
  Forall P l -> Forall P (spliceOut x l).
Proof.
  intros Hl. rewrite Forall_forall in Hl |- *. intros y Hy. apply Hl.
  eapply elem_of_sublist; [done | apply spliceOut_sublist].
Qed.

(** Every converter in a list of a registry reached by registrations has
    the methods of the list's role. *)
Lemma registry_roles (ops : list RegistryOp) :
  Forall (fun c => is_Some (nodeRole (typeComponent host c)))
         (typeNodeConverters (applyOps host ops)) /\
  Forall (fun c => is_Some (typeRole (typeComponent host c)))
         (typeTypeConverters (applyOps host ops)).
Proof.
  induction ops as [|op ops [IHn IHt]] using rev_ind.
  - split; constructor.
  - rewrite applyOps_snoc. destruct op as [c|c]; simpl.
    + split.
      * destruct (nodeRole (typeComponent host c)) as [r|] eqn:E; [|done].
        apply sort_Forall, Forall_app. split; [done|]. constructor; [|constructor].
        rewrite E. by eexists.
      * destruct (typeRole (typeComponent host c)) as [r|] eqn:E; [|done].
        apply sort_Forall, Forall_app. split; [done|]. constructor; [|constructor].
        rewrite E. by eexists.
    + split; by apply spliceOut_Forall.
Qed.

Lemma scanNodeConverters_returns l node type w :
  Forall (fun c => is_Some (nodeRole (typeComponent host c))) l ->
  exists hit w', scanNodeConverters host l node type w = Ok hit w'.
Proof.
  intros Hl. revert w. induction Hl as [|c l [[s cn] Hc] _ IH]; intros w; simpl.
  - by eexists _, _.
  - rewrite Hc. unfold bind at 1, emit at 1.
    destruct (s node type); [by eexists _, _ | apply IH].
Qed.

Lemma scanTypeConverters_returns l type w :
  Forall (fun c => is_Some (typeRole (typeComponent host c))) l ->
  exists hit w', scanTypeConverters host l type w = Ok hit w'.
Proof.
  intros Hl. revert w. induction Hl as [|c l [[s cn] Hc] _ IH]; intros w; simpl.
  - by eexists _, _.
  - rewrite Hc. unfold bind at 1, emit at 1.
    destruct (s type); [by eexists _, _ | apply IH].
Qed.

(** X8: with a registry reached by registrations, [convertType] always
    returns: every converter it asks has the methods it calls. *)
Theorem convertType_returns (ops : list RegistryOp) node type w :
  exists result w', convertType host (applyOps host ops) node type w = Ok result w'.
Proof.
  destruct (registry_roles ops) as [Hn Ht].
  destruct node as [n|].
  - rewrite convertType_typeAt.
    destruct (scanNodeConverters_returns _ n (typeAt host n type)
                (logged (typeLookup n type) w) Hn) as (hit & w1 & ->).
    destruct hit as [result|]; [by eexists _, _|].
    destruct (typeAt host n type) as [t|]; [|by eexists _, _].
    destruct (scanTypeConverters_returns _ t w1 Ht) as (hit & w2 & ->).
    by eexists _, _.
  - unfold convertType. unfold bind at 1, ret at 1.
    destruct type as [t|]; [|by eexists _, _].
    unfold bind. destruct (scanTypeConverters_returns _ t w Ht) as (hit & w2 & ->).
    by eexists _, _.
Qed.

(** The first converter of a list that supports the node. *)
Lemma first_supporting l node type (c : ComponentRef) r :
  Forall (fun c => is_Some (nodeRole (typeComponent host c))) l ->
  c ∈ l -> acceptsNode host node type c r ->
  exists pre c' post r',
    l = pre ++ c' :: post /\ Forall (rejectsNode host node type) pre /\
    acceptsNode host node type c' r' /\ (c' = c \/ c ∈ post).
Proof.
  intros Hl. induction Hl as [|x l [[s cn] Hx] Hl IH]; [by intros ?%elem_of_nil|].
  intros Hin Hacc. destruct (s node type) eqn:Hs.
  - exists [], x, l, (cn node type). split; [done|]. split; [constructor|].
    split; [by exists s, cn|]. apply elem_of_cons in Hin as [->|?]; auto.
  - apply elem_of_cons in Hin as [->|Hin].
    { destruct Hacc as (s' & cn' & Hrole & Hs' & _). congruence. }
    destruct (IH Hin Hacc) as (pre & c' & post & r' & -> & Hpre & Hc' & Hpost).
    exists (x :: pre), c', post, r'. split; [done|].
    split; [|done]. constructor; [by exists s, cn | done].
Qed.

(** X9: with a registry reached by registrations, when some registered
    node-driven converter supports the node, [convertType] returns what a
    supporting node-driven converter of the highest priority among the
    supporting ones converts the node to. *)
Theorem convertType_highest_priority (ops : list RegistryOp) node type w
        (c : ComponentRef) r :
  c ∈ typeNodeConverters (applyOps host ops) ->
  acceptsNode host node (typeAt host node type) c r ->
  exists c' result w',
    convertType host (applyOps host ops) (Some node) type w = Ok result w' /\
    c' ∈ typeNodeConverters (applyOps host ops) /\
    acceptsNode host node (typeAt host node type) c' result /\
    priorityOf host c <= priorityOf host c'.
Proof.
  intros Hin Hacc.
  destruct (registry_roles ops) as [Hroles _].
  destruct (registry_sorted host ops) as [[Hsorted _] _].
  destruct (first_supporting _ _ _ _ _ Hroles Hin Hacc)
    as (pre & c' & post & result & Hl & Hpre & Hc' & Hpost).
  exists c', result. eexists. split; [|split; [|split]].
  - rewrite convertType_typeAt, Hl.
    by rewrite (scanNodeConverters_hit host _ _ _ _ _ _ _ Hpre Hc').
  - rewrite Hl. apply elem_of_app. right. left.
  - done.
  - destruct Hpost as [->|Hpost]; [lia|].
    rewrite Hl in Hsorted. apply sorted_after in Hsorted as Hc'post.
    rewrite Forall_forall in Hc'post. apply (Hc'post c Hpost).
Qed.

End TypeResolutionMore.

(** * More about strings and the tag pattern *)

Lemma append_nil_r (s : string) : s +:+ "" = s.
Proof.
  induction s as [|c s IH]; [done|].
  change (String c s +:+ "") with (String c (s +:+ "")). by rewrite IH.
Qed.

Lemma startsWith_sound needle s :
  JsString.startsWith needle s = true -> exists after, s = needle +:+ after.
Proof.
  revert s. induction needle as [|c needle IH]; intros s; simpl.
  - intros _. by exists s.
  - destruct s as [|d s]; [done|]. case_decide as Hcd; [|done]. subst d.
    intros [after ->]%IH. by exists after.
Qed.

(** [indexOf] finds only what is there. *)
Lemma indexOf_sound needle s :
  0 <= JsString.indexOf needle s -> contains needle s.
Proof.
  induction s as [|c s IH]; simpl.
  - destruct (JsString.startsWith needle "") eqn:E; [|lia].
    intros _. apply startsWith_sound in E as [after E]. by exists "", after.
  - destruct (JsString.startsWith needle (String c s)) eqn:E.
    + intros _. apply startsWith_sound in E as [after E]. by exists "", after.
    + destruct (JsString.indexOf needle s =? -1) eqn:E1; [lia|].
      apply Z.eqb_neq in E1. intros _.
      destruct (indexOf_range needle s) as [?|Hge]; [done|].
      destruct (IH Hge) as (before & after & ->).
      by exists (String c before), after.
Qed.

Lemma indexOf_contains needle s :
  contains needle s <-> JsString.indexOf needle s <> -1.
Proof.
  split.
  - intros (before & after & ->). pose proof (indexOf_found needle before after). lia.
  - intros Hne. apply indexOf_sound.
    destruct (indexOf_range needle s); [done | lia].
Qed.

Lemma toLowerCase_app_inv s x y :
  JsString.toLowerCase s = x +:+ y ->
  exists s1 s2, s = s1 +:+ s2 /\ JsString.toLowerCase s1 = x /\ JsString.toLowerCase s2 = y.
Proof.
  revert s. induction x as [|c x IH]; intros s; simpl.
  - intros H. by exists "", s.
  - destruct s as [|d s]; [done|]. simpl. intros [= Hc Hs].
    destruct (IH s Hs) as (s1 & s2 & -> & H1 & H2).
    exists (String d s1), s2. simpl. by rewrite Hc, H1.
Qed.

Lemma containsIgnoreCase_indexOf sub s :
  JsString.toLowerCase sub = sub ->
  containsIgnoreCase sub s <-> 0 <= JsString.indexOf sub (JsString.toLowerCase s).
Proof.
  intros Hsub. split.
  - intros (before & part & after & -> & Hpart). unfold equalsIgnoreCase in Hpart.
    rewrite !toLowerCase_app, Hpart, Hsub. apply indexOf_found.
  - intros (before & after & H)%indexOf_sound.
    apply toLowerCase_app_inv in H as (s1 & s23 & -> & H1 & H23).
    apply toLowerCase_app_inv in H23 as (s2 & s3 & -> & H2 & H3).
    exists s1, s2, s3. split; [done|]. unfold equalsIgnoreCase. by rewrite Hsub.
Qed.

Lemma wordChar_not_comma c : JsString.isWordChar c = true -> c <> ","%char.
Proof. intros H ->. done. Qed.

Lemma split_nonempty s : TagRegex.split s <> [].
Proof.
  induction s as [|c s IH]; simpl; [done|].
  case_decide.
  - destruct s as [|d s]; [done|]. by destruct (JsString.isWhiteSpace d).
  - by destruct (TagRegex.split s).
Qed.

Lemma split_word name rest :
  allWordChars name = true ->
  TagRegex.split (name +:+ rest) =
  match TagRegex.split rest with
  | piece :: pieces => (name +:+ piece) :: pieces
  | [] => [name]
  end.
Proof.
  induction name as [|c name IH].
  - intros _. change ("" +:+ rest) with rest.
    pose proof (split_nonempty rest). by destruct (TagRegex.split rest).
  - intros [Hc Hname]%andb_prop.
    change (String c name +:+ rest) with (String c (name +:+ rest)).
    cbn [TagRegex.split]. rewrite decide_False by by apply wordChar_not_comma.
    rewrite IH by done.
    pose proof (split_nonempty rest). by destruct (TagRegex.split rest).
Qed.

(** Splitting a list of feature names gives the names. *)
Lemma split_joinFeatures names :
  names <> [] -> Forall isFeatureName names ->
  TagRegex.split (joinFeatures names) = names.
Proof.
  induction names as [|name names IH]; [done|]. intros _ Hnames.
  apply Forall_cons in Hnames as [[_ Hname] Hnames].
  destruct names as [|name' names].
  - simpl. rewrite <- (append_nil_r name) at 1. rewrite split_word by done.
    simpl. by rewrite append_nil_r.
  - change (joinFeatures (name :: name' :: names))
      with (name +:+ ", " +:+ joinFeatures (name' :: names)).
    rewrite split_word by done.
    change (", " +:+ joinFeatures (name' :: names))
      with (String "," (String " " (joinFeatures (name' :: names)))).
    cbn [TagRegex.split]. rewrite decide_True by done.
    change (JsString.isWhiteSpace " ") with true. cbv iota.
    rewrite IH by done. by rewrite append_nil_r.
Qed.

Lemma joinFeatures_cons_char c name names :
  String c (joinFeatures (name :: names)) = joinFeatures (String c name :: names).
Proof. by destruct names. Qed.

(** What the capturing group matches is a list of feature names. *)
Lemma featureListLength_names (bound : nat) :
  forall s n,
    (String.length s <= bound)%nat ->
    TagRegex.featureListLength s = Some n ->
    exists names,
      names <> [] /\ Forall isFeatureName names /\
      JsString.take n s = joinFeatures names.
Proof.
  induction bound as [|bound IH]; intros s n Hlen.
  - destruct s; [done | simpl in Hlen; lia].
  - destruct s as [|c s]; [done|]. simpl in Hlen. simpl.
    destruct (JsString.isWordChar c) eqn:Hc; [|done].
    assert (isFeatureName (String c "")) as Hone.
    { split; [done|]. simpl. by rewrite Hc. }
    destruct (TagRegex.featureListLength s) as [m|] eqn:Hs.
    + intros [= <-].
      destruct (IH s m ltac:(lia) Hs) as (names & Hne & Hnames & Htake).
      destruct names as [|name names]; [done|].
      exists (String c name :: names). split; [done|]. split.
      * apply Forall_cons in Hnames as [[_ Hname] Hnames].
        constructor; [|done]. split; [done|]. simpl. by rewrite Hc, Hname.
      * simpl JsString.take. rewrite Htake. apply joinFeatures_cons_char.
    + assert (forall rest, Some 1%nat = Some n ->
                exists names,
                  names <> [] /\ Forall isFeatureName names /\
                  JsString.take n (String c rest) = joinFeatures names) as Hsingle.
      { intros rest [= <-]. exists [String c ""].
        split; [done|]. split; [by constructor | done]. }
      destruct s as [|d s]; [apply Hsingle|].
      destruct (decide (d = ","%char)) as [->|Hd].
      2:{ destruct d as [[] [] [] [] [] [] [] []]; try apply Hsingle. done. }
      destruct s as [|e s]; [apply Hsingle|].
      destruct (decide (e = " "%char)) as [->|He].
      2:{ destruct e as [[] [] [] [] [] [] [] []]; try apply Hsingle. done. }
      simpl in Hlen.
      destruct (TagRegex.featureListLength s) as [m|] eqn:Hs2; [|apply Hsingle].
      intros [= <-].
      destruct (IH s m ltac:(lia) Hs2) as (names & Hne & Hnames & Htake).
      exists (String c "" :: names). split; [done|]. split; [by constructor|].
      simpl JsString.take. rewrite Htake. by destruct names.
Qed.

Lemma exec_group s group :
  TagRegex.exec s = Some group ->
  exists s' n, TagRegex.featureListLength s' = Some n /\ group = JsString.take n s'.
Proof.
  induction s as [|c s IH]; simpl.
  - unfold TagRegex.matchAt. simpl. done.
  - destruct (TagRegex.matchAt (String c s)) as [[len g]|] eqn:E; [|apply IH].
    intros [= <-]. unfold TagRegex.matchAt in E.
    destruct (JsString.startsWith _ _); [|done].
    destruct (TagRegex.featureListLength _) as [n|] eqn:En; [|done].
    injection E as _ <-. by eexists _, _.
Qed.

(** A comment that the pattern matches holds the marker. *)
Lemma exec_marker s group :
  TagRegex.exec s = Some group -> JsString.indexOf "@notSupportedIn" s <> -1.
Proof.
  induction s as [|c s IH].
  - simpl. unfold TagRegex.matchAt. simpl. done.
  - cbn [TagRegex.exec JsString.indexOf].
    destruct (TagRegex.matchAt (String c s)) as [[len g]|] eqn:E.
    + intros _. unfold TagRegex.matchAt, TagRegex.marker in E.
      destruct (JsString.startsWith "@notSupportedIn" (String c s)); [done|done].
    + intros H. specialize (IH H).
      destruct (JsString.startsWith "@notSupportedIn" (String c s)); [done|].
      destruct (JsString.indexOf "@notSupportedIn" s =? -1) eqn:E1.
      * apply Z.eqb_eq in E1. done.
      * destruct (indexOf_range "@notSupportedIn" s); [done | lia].
Qed.

Lemma exec_names s group :
  TagRegex.exec s = Some group ->
  exists names,
    names <> [] /\ Forall isFeatureName names /\
    group = joinFeatures names /\ TagRegex.split group = names.
Proof.
  intros (s' & n & Hn & ->)%exec_group.
  destruct (featureListLength_names (String.length s') s' n (le_n _) Hn)
    as (names & Hne & Hnames & Htake).
  exists names. rewrite Htake. repeat split; try done. by apply split_joinFeatures.
Qed.

(** X10: what [tagRegex.exec] captures is a list of one or more feature
    names, each a non-empty run of word characters, separated by a comma
    and a space, and [split(/,\s?/)] gives back exactly these names. *)
Theorem exec_feature_names s group :
  TagRegex.exec s = Some group ->
  exists names,
    names <> [] /\ Forall isFeatureName names /\
    group = joinFeatures names /\ TagRegex.split group = names.
Proof. apply exec_names. Qed.

(** * More about the post-processing of [convertNode] *)

Section PostProcess.
Variable host : Host.

Lemma sameButKind_refl r : sameButKind r r.
Proof. by repeat split. Qed.

Lemma foldl_setKind_same (test : ModelType -> bool) (types : list ModelType) :
  forall r,
    sameButKind r (foldl (fun r type => if test type then setKind CoveoComponent r else r)
                         r types).
Proof.
  induction types as [|t types IH]; intros r; simpl; [apply sameButKind_refl|].
  destruct (IH (if test t then setKind CoveoComponent r else r))
    as (H1 & H2 & H3 & H4 & H5 & H6 & H7).
  unfold sameButKind. rewrite H1, H2, H3, H4, H5, H6, H7.
  by destruct (test t).
Qed.

Lemma foldl_setKind_kind (test : ModelType -> bool) (types : list ModelType) :
  forall r,
    kind (foldl (fun r type => if test type then setKind CoveoComponent r else r) r types)
    = if existsb test types then CoveoComponent else kind r.
Proof.
  induction types as [|t types IH]; intros r; simpl; [done|].
  rewrite IH. destruct (test t); simpl; [by destruct (existsb test types) | done].
Qed.

Lemma markAll_same test types r : sameButKind r (markAll test types r).
Proof.
  destruct types as [l|]; [apply foldl_setKind_same | apply sameButKind_refl].
Qed.

Lemma markAll_kind test types r :
  kind (markAll test types r)
  = if existsb test (default [] types) then CoveoComponent else kind r.
Proof. destruct types as [l|]; [apply foldl_setKind_kind | done]. Qed.

Lemma overrideKind_markAll r :
  overrideKind r =
  if isDeclarationReflection r then
    markAll rendersBindings
            (implementedTypes (markAll rendersComponent (extendedTypes r) r))
            (markAll rendersComponent (extendedTypes r) r)
  else r.
Proof. done. Qed.

Lemma overrideKind_same r : sameButKind r (overrideKind r).
Proof.
  rewrite overrideKind_markAll.
  destruct (isDeclarationReflection r); [|apply sameButKind_refl].
  destruct (markAll_same rendersComponent (extendedTypes r) r)
    as (? & ? & ? & ? & ? & ? & ?).
  destruct (markAll_same rendersBindings
              (implementedTypes (markAll rendersComponent (extendedTypes r) r))
              (markAll rendersComponent (extendedTypes r) r))
    as (? & ? & ? & ? & ? & ? & ?).
  repeat split; congruence.
Qed.

Lemma overrideKind_kind r :
  kind (overrideKind r) =
  if isDeclarationReflection r
     && (existsb rendersComponent (default [] (extendedTypes r))
         || existsb rendersBindings (default [] (implementedTypes r)))
  then CoveoComponent else kind r.
Proof.
  rewrite overrideKind_markAll. destruct (isDeclarationReflection r); [|done]. simpl.
  rewrite markAll_kind, markAll_kind.
  destruct (markAll_same rendersComponent (extendedTypes r) r)
    as (_ & _ & _ & _ & _ & _ & ->).
  destruct (existsb rendersBindings _); [by rewrite orb_true_r|].
  by rewrite orb_false_r.
Qed.

Lemma existsb_rendersComponent r :
  existsb rendersComponent (default [] (extendedTypes r)) = true <-> extendsComponent r.
Proof.
  rewrite existsb_exists. unfold extendsComponent, rendersComponent, equalsIgnoreCase.
  split.
  - intros (type & Hin%list_elem_of_In & Heq%String.eqb_eq).
    destruct (extendedTypes r) as [types|]; [|by apply elem_of_nil in Hin].
    by exists types, type.
  - intros (types & type & -> & Hin & Heq). exists type.
    split; [by apply list_elem_of_In|]. by apply String.eqb_eq.
Qed.

Lemma existsb_rendersBindings r :
  existsb rendersBindings (default [] (implementedTypes r)) = true <-> implementsBindings r.
Proof.
  rewrite existsb_exists. unfold implementsBindings, rendersBindings. split.
  - intros (impl & Hin%list_elem_of_In & Hge%Z.leb_le).
    destruct (implementedTypes r) as [impls|]; [|by apply elem_of_nil in Hin].
    exists impls, impl. split; [done|]. split; [done|].
    by apply containsIgnoreCase_indexOf.
  - intros (impls & impl & -> & Hin & Hc). exists impl.
    split; [by apply list_elem_of_In|]. apply Z.leb_le.
    by apply containsIgnoreCase_indexOf.
Qed.

(** [postProcess] case by case. *)
Lemma postProcess_cases node r0 w :
  postProcess host node (Some r0) w =
  match getRawComment host node with
  | None => Ok (Some (overrideKind r0)) w
  | Some c =>
      if negb (JsString.indexOf "@notSupportedIn" c =? -1) then
        match TagRegex.exec c with
        | None => Throw (TypeError "Cannot read property '1' of null")
        | Some features =>
            Ok (Some (overrideKind
                        (flagged c (setNotSupportedIn (TagRegex.split features)
                                      (setComment (taggedComment host c features) r0))))) w
        end
      else Ok (Some (overrideKind (flagged c r0))) w
  end.
Proof.
  unfold postProcess, bind. destruct (getRawComment host node) as [c|]; [|done].
  destruct (negb (JsString.indexOf "@notSupportedIn" c =? -1)); [|done].
  unfold applyNotSupportedIn. destruct (TagRegex.exec c) as [features|]; [|done].
  unfold ret, flagged, taggedComment, notSupportedInTag, setTags.
  by destruct (parseComment host (TagRegex.replace c)) as [st tx [tg|]].
Qed.

Lemma negb_indexOf needle s :
  negb (JsString.indexOf needle s =? -1) = true <-> contains needle s.
Proof.
  rewrite indexOf_contains, negb_true_iff, Z.eqb_neq. done.
Qed.

Lemma flagged_fields c r :
  reflId (flagged c r) = reflId r /\
  isDeclarationReflection (flagged c r) = isDeclarationReflection r /\
  kind (flagged c r) = kind r /\
  comment (flagged c r) = comment r /\
  notSupportedIn (flagged c r) = notSupportedIn r /\
  extendedTypes (flagged c r) = extendedTypes r /\
  implementedTypes (flagged c r) = implementedTypes r /\
  (flagCoveoComponentOptions (flagged c r) = true <->
   flagCoveoComponentOptions r = true \/ contains "@componentOptions" c).
Proof.
  unfold flagged.
  destruct (negb (JsString.indexOf "@componentOptions" c =? -1)) eqn:E; simpl.
  - apply negb_indexOf in E. repeat split; auto.
  - repeat split; auto. intros [?|Hc]; [done|].
    apply negb_indexOf in Hc. congruence.
Qed.

(** The reflection that the kind override is applied to. *)
Lemma postProcess_inv node r0 w r w' :
  postProcess host node (Some r0) w = Ok (Some r) w' ->
  w' = w /\
  exists r2,
    r = overrideKind r2 /\
    reflId r2 = reflId r0 /\
    isDeclarationReflection r2 = isDeclarationReflection r0 /\
    kind r2 = kind r0 /\
    extendedTypes r2 = extendedTypes r0 /\
    implementedTypes r2 = implementedTypes r0 /\
    (flagCoveoComponentOptions r2 = true <->
     flagCoveoComponentOptions r0 = true \/ hasComponentOptions host node) /\
    (~ hasNotSupportedIn host node ->
     comment r2 = comment r0 /\ notSupportedIn r2 = notSupportedIn r0).
Proof.
  rewrite postProcess_cases. unfold hasComponentOptions, hasNotSupportedIn.
  destruct (getRawComment host node) as [c|] eqn:Hc.
  - destruct (negb (JsString.indexOf "@notSupportedIn" c =? -1)) eqn:Hm.
    + destruct (TagRegex.exec c) as [features|]; [|done].
      intros [= <- <-]. split; [done|]. eexists. split; [done|].
      destruct (flagged_fields c (setNotSupportedIn (TagRegex.split features)
                                    (setComment (taggedComment host c features) r0)))
        as (? & ? & ? & ? & ? & ? & ? & Hf).
      split_and!; try done.
      * rewrite Hf. split; (intros [?|Hopt]; [by left | right]).
        -- by exists c.
        -- by destruct Hopt as (c' & [= <-] & ?).
      * intros Hno. destruct Hno. exists c. split; [done|]. by apply negb_indexOf.
    + intros [= <- <-]. split; [done|]. eexists. split; [done|].
      destruct (flagged_fields c r0) as (? & ? & ? & ? & ? & ? & ? & Hf).
      split_and!; try done.
      rewrite Hf. split; (intros [?|Hopt]; [by left | right]).
      * by exists c.
      * by destruct Hopt as (c' & [= <-] & ?).
  - intros [= <- <-]. split; [done|]. exists r0. split_and!; try done.
    split; [auto|]. intros [?|(c' & ? & ?)]; done.
Qed.


(** X12: a reflection that the post-processing of [convertNode] returns
    has the kind of a component exactly when it had that kind already, or
    is a declaration one of whose extended types renders as [component],
    or one of whose implemented types renders with [icomponentbindings]
    in it, up to the case of the letters; otherwise it keeps its kind. *)
Theorem postProcess_kind_exact node r0 w r w' :
  postProcess host node (Some r0) w = Ok (Some r) w' ->
  (kind r = CoveoComponent <->
   kind r0 = CoveoComponent \/
   (isDeclarationReflection r0 = true /\ (extendsComponent r0 \/ implementsBindings r0))) /\
  (kind r <> CoveoComponent -> kind r = kind r0).
Proof.
  intros (_ & r2 & -> & _ & Hd & Hk & He & Hi & _)%postProcess_inv.
  rewrite overrideKind_kind, Hd, Hk.
  assert (extendsComponent r2 <-> extendsComponent r0) as Hext
    by (unfold extendsComponent; by rewrite He).
  assert (implementsBindings r2 <-> implementsBindings r0) as Himpl
    by (unfold implementsBindings; by rewrite Hi).
  rewrite <- Hext, <- Himpl, <- existsb_rendersComponent, <- existsb_rendersBindings.
  clear Hext Himpl.
  destruct (isDeclarationReflection r0); simpl.
  - destruct (existsb rendersComponent _); simpl; [intuition congruence|].
    destruct (existsb rendersBindings _); simpl; intuition congruence.
  - intuition congruence.
Qed.

(** X13: a reflection that the post-processing of [convertNode] returns
    has the flag of component options exactly when it had it already or
    the raw comment of the node holds [@componentOptions]; the flag is
    never cleared. *)
Theorem postProcess_componentOptions node r0 w r w' :
  postProcess host node (Some r0) w = Ok (Some r) w' ->
  (flagCoveoComponentOptions r = true <->
   flagCoveoComponentOptions r0 = true \/ hasComponentOptions host node).
Proof.
  intros (_ & r2 & -> & _ & _ & _ & _ & _ & Hf & _)%postProcess_inv.
  destruct (overrideKind_same r2) as (_ & _ & _ & _ & -> & _). done.
Qed.

(** X14: when the tag pattern matches the raw comment of the node, the
    post-processing of [convertNode] returns; the reflection then records
    the feature names of the match, each a non-empty run of word
    characters, and its comment is the parse of the raw comment without
    its tags, with one more tag, [not supported in], at the end.  The text
    of that tag is the matched feature list, or, when the lookup of the
    feature list in the configuration of unsupported features yields
    something truthy, the link made of what was found. *)
Theorem postProcess_notSupportedIn node c features r0 w :
  getRawComment host node = Some c ->
  TagRegex.exec c = Some features ->
  exists r names,
    postProcess host node (Some r0) w = Ok (Some r) w /\
    notSupportedIn r = Some names /\
    names <> [] /\ Forall isFeatureName names /\ features = joinFeatures names /\
    comment r = Some (taggedComment host c features).
Proof.
  intros Hc He. rewrite postProcess_cases, Hc.
  assert (negb (JsString.indexOf "@notSupportedIn" c =? -1) = true) as ->.
  { apply negb_true_iff, Z.eqb_neq. by eapply exec_marker. }
  rewrite He.
  destruct (exec_names _ _ He) as (names & Hne & Hnames & Hjoin & Hsplit).
  eexists _, names. split; [done|].
  destruct (overrideKind_same
              (flagged c (setNotSupportedIn (TagRegex.split features)
                            (setComment (taggedComment host c features) r0))))
    as (_ & _ & -> & -> & _).
  destruct (flagged_fields c (setNotSupportedIn (TagRegex.split features)
                                (setComment (taggedComment host c features) r0)))
    as (_ & _ & _ & -> & -> & _).
  simpl. by rewrite Hsplit.
Qed.

(** X15: the post-processing of [convertNode] leaves the world, the
    identifier of the reflection, its class and its extended and
    implemented types as they are, and its comment and feature list too
    when the raw comment of the node does not hold the marker of
    unsupported features. *)
Theorem postProcess_frame node r0 w r w' :
  postProcess host node (Some r0) w = Ok (Some r) w' ->
  w' = w /\
  reflId r = reflId r0 /\
  isDeclarationReflection r = isDeclarationReflection r0 /\
  extendedTypes r = extendedTypes r0 /\
  implementedTypes r = implementedTypes r0 /\
  (~ hasNotSupportedIn host node ->
   comment r = comment r0 /\ notSupportedIn r = notSupportedIn r0).
Proof.
  intros (-> & r2 & -> & H1 & H2 & _ & H4 & H5 & _ & H7)%postProcess_inv.
  destruct (overrideKind_same r2) as (-> & -> & -> & -> & _ & -> & ->).
  repeat split; try done; by apply H7.
Qed.

End PostProcess.

(** * More about the traversal *)

Section TraversalMore.
Variable host : Host.

(** A relation between worlds that every step of [convertNode] respects
    holds between the world before and the world after a call that
    returns. *)
Lemma convertNode_respects (R : relation World) `{!PreOrder R} cv :
  (forall node (stack : list Node) w,
     nodeArrays w !! visitStack (ctx w) = Some stack -> node ∉ stack ->
     R w (enterNode node stack w)) ->
  (forall l w, R w (withVisitStack l w)) ->
  (forall c node w,
     nodeConverters cv !! nodeKind host node = Some c -> R w (logged [EvConvert c node] w)) ->
  (forall r w w', registerReflection r w = Ok tt w' -> R w w') ->
  forall fuel node w r w', convertNode host fuel cv node w = Ok r w' -> R w w'.
Proof.
  intros Henter Hexit Hcall Hreg.
  induction fuel as [|fuel IH]; [done|]. intros node w r w' H.
  destruct (nodeArrays w !! visitStack (ctx w)) as [stack|] eqn:Hstack.
  2:{ simpl in H. unfold bind at 1, getContext in H.
      unfold bind at 1, readNodeArray in H. by rewrite Hstack in H. }
  rewrite (convertNode_unfold _ _ _ _ _ _ Hstack) in H.
  destruct (arrayIndexOf node stack =? -1) eqn:Hin; simpl in H.
  2:{ injection H as _ <-. reflexivity. }
  apply Z.eqb_eq, arrayIndexOf_absent in Hin.
  destruct (callNodeConverter _ _ _ _ _) as [result w1| |] eqn:Hc; try done.
  apply postProcess_world in H as ->.
  transitivity (enterNode node stack w); [by apply Henter|].
  transitivity w1; [|apply Hexit].
  unfold callNodeConverter in Hc.
  destruct (nodeConverters cv !! nodeKind host node) as [c|] eqn:Hk.
  2:{ injection Hc as _ <-. reflexivity. }
  apply bind_Ok in Hc as ([] & w2 & He & Hp). injection He as <-.
  transitivity (logged [EvConvert c node] (enterNode node stack w)); [by apply Hcall|].
  clear Hk. revert Hp. generalize (logged [EvConvert c node] (enterNode node stack w)).
  generalize (convert_ (nodeComponent host c) node). clear -IH Hreg PreOrder0.
  intros p. revert result w1.
  induction p as [res|message|child k IHp|refl k IHp]; simpl; intros result w1 w0 Hp.
  - injection Hp as _ <-. reflexivity.
  - done.
  - apply bind_Ok in Hp as (r1 & w2 & H1 & H2).
    transitivity w2; [by eapply IH | by eapply IHp].
  - apply bind_Ok in Hp as ([] & w2 & H1 & H2).
    transitivity w2; [by eapply Hreg | by eapply IHp].
Qed.

#[local] Instance onlyRegisteredCalls_preorder cv : PreOrder (onlyRegisteredCalls host cv).
Proof.
  split.
  - intros w. exists []. by rewrite app_nil_r.
  - intros w1 w2 w3 (es1 & H1 & F1) (es2 & H2 & F2). exists (es1 ++ es2).
    split; [|by apply Forall_app]. rewrite H2, H1. by rewrite app_assoc.
Qed.

Lemma convertNode_onlyRegisteredCalls fuel cv node w r w' :
  convertNode host fuel cv node w = Ok r w' -> onlyRegisteredCalls host cv w w'.
Proof.
  apply (convertNode_respects (onlyRegisteredCalls host cv)).
  - intros n stack w0 _ _. exists []. by rewrite app_nil_r.
  - intros l w0. exists []. by rewrite app_nil_r.
  - intros c n w0 Hc. exists [EvConvert c n]. split; [done|]. by constructor.
  - intros refl w0 w1 [= <-]. exists []. by rewrite app_nil_r.
Qed.

(** X16: in a traversal that returns, every call of a node converter, at
    any depth, is a call of the converter registered for the kind of the
    node it is called on. *)
Theorem convertNode_calls_registered fuel cv node w r w' es c n :
  convertNode host fuel cv node w = Ok r w' ->
  log w' = log w ++ es ->
  EvConvert c n ∈ es ->
  nodeConverters cv !! nodeKind host n = Some c.
Proof.
  intros H Hlog Hin.
  destruct (convertNode_onlyRegisteredCalls _ _ _ _ _ _ H) as (es' & Hlog' & Hes).
  rewrite Hlog in Hlog'. apply app_inv_head in Hlog' as ->.
  rewrite Forall_forall in Hes. apply (Hes _ Hin).
Qed.

#[local] Instance keepsDuplicateFree_preorder :
  PreOrder (fun w w' => stacksDuplicateFree w -> stacksDuplicateFree w').
Proof. split; [by intros w | intros w1 w2 w3 H1 H2; auto]. Qed.

(** X17: a traversal that returns keeps the visit stacks free of
    duplicates: when no array of nodes holds a node twice before
    [convertNode], none does after it. *)
Theorem convertNode_keeps_stacks_duplicate_free fuel cv node w r w' :
  stacksDuplicateFree w ->
  convertNode host fuel cv node w = Ok r w' ->
  stacksDuplicateFree w'.
Proof.
  intros Hfree H. revert Hfree.
  apply (convertNode_respects
           (fun w w' => stacksDuplicateFree w -> stacksDuplicateFree w')
           cv) with (fuel := fuel) (node := node) (r := r); [| | | |done].
  - intros n stack w0 Hstack Hn Hfree. unfold stacksDuplicateFree, enterNode. simpl.
    apply Forall_app. split; [done|]. constructor; [|constructor].
    apply NoDup_app. split; [|split; [|apply NoDup_singleton]].
    + unfold stacksDuplicateFree in Hfree. rewrite Forall_forall in Hfree.
      apply Hfree. by eapply list_elem_of_lookup_2.
    + intros x Hx ->%list_elem_of_singleton. done.
  - by intros l w0.
  - by intros c n w0 _.
  - intros refl w0 w1 [= <-]. done.
Qed.

#[local] Instance sameFileNames_preorder :
  PreOrder (fun w w' => fileNameOf w' = fileNameOf w).
Proof. split; [by intros w | intros w1 w2 w3 H1 H2; congruence]. Qed.

(** [convertNode] does not touch the file names of the nodes. *)
Lemma convertNode_fileNameOf fuel cv node w r w' :
  convertNode host fuel cv node w = Ok r w' -> fileNameOf w' = fileNameOf w.
Proof.
  apply (convertNode_respects (fun w w' => fileNameOf w' = fileNameOf w)); try done.
  by intros refl w0 w1 [= <-].
Qed.

(** The loop of [compile] over the source files [sources]. *)
Lemma forEach_sourceFiles fuel cv (sources : list Node) :
  NoDup sources ->
  forall w w1,
    forEach (fun sourceFile =>
               fixFileName host sourceFile ;;;
               convertNode host fuel cv sourceFile ;;; ret tt) sources w = Ok tt w1 ->
    (forall sourceFile, sourceFile ∈ sources ->
       exists fileName,
         fileNameOf w !! sourceFile = Some fileName /\
         fileNameOf w1 !! sourceFile = Some (fixedFileName host fileName)) /\
    (forall n, n ∉ sources -> fileNameOf w1 !! n = fileNameOf w !! n).
Proof.
  induction 1 as [|sf sources Hsf Hnd IH]; intros w w1 H; simpl in H.
  - injection H as <-. split; [by intros ? ?%elem_of_nil | done].
  - apply bind_Ok in H as ([] & w4 & Hstep & Hrest).
    apply bind_Ok in Hstep as ([] & w2 & Hfix & Hstep).
    apply bind_Ok in Hstep as (r & w3 & Hconv & [= <-]).
    apply convertNode_fileNameOf in Hconv.
    destruct (IH _ _ Hrest) as [IHin IHout].
    unfold fixFileName in Hfix.
    destruct (fileNameOf w !! sf) as [fileName|] eqn:Hname; [|done].
    assert (fileNameOf w3 = <[sf := fixedFileName host fileName]> (fileNameOf w)) as Hw3.
    { rewrite Hconv. unfold fixedFileName.
      destruct (isAbsolute host fileName); injection Hfix as <-; simpl; [|done].
      by rewrite insert_id. }
    split.
    + intros x [->|Hx]%elem_of_cons.
      * exists fileName. split; [done|]. rewrite IHout by done.
        rewrite Hw3. apply lookup_insert_eq.
      * destruct (IHin x Hx) as (name & Hbefore & Hafter).
        exists name. split; [|done]. rewrite Hw3 in Hbefore.
        rewrite lookup_insert_ne in Hbefore; [done|]. intros ->. done.
    + intros n [Hn Hnot]%not_elem_of_cons. rewrite IHout by done.
      rewrite Hw3. by rewrite lookup_insert_ne.
Qed.

(** X18: a [compile] that returns leaves every source file of the
    program with its file name if that is absolute, and otherwise with the
    normalized join of the working directory of the compiler host and its
    file name; the file names of other nodes are untouched (the source
    files of the program being distinct). *)
Theorem compile_fixes_fileNames fuel cv w diagnostics w' :
  NoDup (getSourceFiles (program (ctx w))) ->
  compile host fuel cv w = Ok diagnostics w' ->
  (forall sourceFile, sourceFile ∈ getSourceFiles (program (ctx w)) ->
     exists fileName,
       fileNameOf w !! sourceFile = Some fileName /\
       fileNameOf w' !! sourceFile = Some (fixedFileName host fileName)) /\
  (forall n, n ∉ getSourceFiles (program (ctx w)) ->
             fileNameOf w' !! n = fileNameOf w !! n).
Proof.
  intros Hnd H. pose proof H as H'. unfold compile in H'.
  apply bind_Ok in H' as ([] & w1 & Hsrc & _).
  rewrite (compile_pipeline _ _ _ _ _ Hsrc) in H. injection H as _ <-.
  unfold convertSourceFiles in Hsrc. unfold bind at 1, getContext in Hsrc.
  by apply forEach_sourceFiles in Hsrc.
Qed.

End TraversalMore.

(** * More about the lifecycle *)

Section LifecycleMore.
Variable host : Host.

(** A node of a kind without a converter, not on the visit stack. *)
Lemma convertNode_unregistered fuel cv node w (stack : list Node) :
  nodeArrays w !! visitStack (ctx w) = Some stack ->
  node ∉ stack ->
  nodeConverters cv !! nodeKind host node = None ->
  convertNode host (S fuel) cv node w
  = Ok None (withVisitStack (visitStack (ctx w)) (enterNode node stack w)).
Proof.
  intros Hstack Hnotin%arrayIndexOf_absent Hnone.
  rewrite (convertNode_unfold _ _ _ _ _ _ Hstack), Hnotin. simpl.
  unfold callNodeConverter. by rewrite Hnone.
Qed.

(** The loop of [compile] over source files of kinds without a
    converter. *)
Lemma forEach_unregistered fuel cv (sources : list Node) :
  forall w,
    nodeArrays w !! visitStack (ctx w) = Some [] ->
    Forall (fun sf => nodeConverters cv !! nodeKind host sf = None /\
                      is_Some (fileNameOf w !! sf)) sources ->
    exists w1,
      forEach (fun sourceFile =>
                 fixFileName host sourceFile ;;;
                 convertNode host (S fuel) cv sourceFile ;;; ret tt) sources w = Ok tt w1 /\
      ctx w1 = ctx w /\ log w1 = log w /\ stringArrays w1 = stringArrays w.
Proof.
  induction sources as [|sf sources IH]; intros w Hstack Hall; simpl.
  - by exists w.
  - apply Forall_cons in Hall as [[Hnone [fileName Hname]] Hall].
    set (w2 := if isAbsolute host fileName then w
               else setFileNameOf (<[sf := fixedFileName host fileName]> (fileNameOf w)) w).
    assert (fixFileName host sf w = Ok tt w2) as Hfix.
    { unfold fixFileName, w2, fixedFileName. rewrite Hname.
      by destruct (isAbsolute host fileName). }
    assert (ctx w2 = ctx w /\ log w2 = log w /\ stringArrays w2 = stringArrays w /\
            nodeArrays w2 = nodeArrays w) as (Hc2 & Hl2 & Hs2 & Hn2).
    { unfold w2. by destruct (isAbsolute host fileName). }
    assert (nodeArrays w2 !! visitStack (ctx w2) = Some []) as Hstack2
      by by rewrite Hc2, Hn2.
    pose proof (convertNode_unregistered fuel cv sf w2 [] Hstack2
                  (not_elem_of_nil sf) Hnone) as Hconv.
    set (w3 := withVisitStack (visitStack (ctx w2)) (enterNode sf [] w2)) in *.
    assert (ctx w3 = ctx w) as Hc3.
    { unfold w3, withVisitStack, enterNode. simpl. rewrite Hc2. by destruct (ctx w). }
    destruct (IH w3) as (w1 & Hrest & Hc1 & Hl1 & Hs1).
    { rewrite Hc3. unfold w3. simpl. rewrite Hn2. by apply lookup_app_l_Some. }
    { eapply Forall_impl; [exact Hall|]. intros x [Hx [name Hxn]]. split; [done|].
      unfold w3. simpl. unfold w2.
      destruct (isAbsolute host fileName); [by eexists|]. simpl.
      destruct (decide (sf = x)) as [<-|Hne].
      - rewrite lookup_insert_eq. by eexists.
      - rewrite lookup_insert_ne by done. by eexists. }
    exists w1. split.
    + erewrite bind_step; [exact Hrest|].
      by rewrite (bind_step _ _ _ _ _ Hfix), (bind_step _ _ _ _ _ Hconv).
    + rewrite Hc1, Hl1, Hs1. split; [done|]. split; [by rewrite <- Hl2 | by rewrite <- Hs2].
Qed.

(** X19: when no source file of the program is of a kind with a node
    converter (an empty registry, or a program without source files),
    [convert] returns an empty project and the diagnostics of the
    pipeline, and fires the begin, resolve-begin, resolve-end and end
    events with no conversion and no resolved reflection in between. *)
Theorem convert_nothing_registered fuel cv (l : Loc) (a : list string) w :
  stringArrays w !! l = Some a ->
  Forall (fun sf => nodeConverters cv !! nodeKind host sf = None /\
                    is_Some (fileNameOf w !! sf))
         (getSourceFiles (createProgram host (map (normalized host) a))) ->
  exists res w' asked,
    convert host (S fuel) cv l w = Ok res w' /\
    projectReflection res = [] /\
    (asked, errors res) = pipeline (createProgram host (map (normalized host) a)) allPhases /\
    log w' = log w ++ [EvCreateProgram (map (normalized host) a); EvTrigger EVENT_BEGIN None]
                   ++ map EvDiagnostics asked
                   ++ [EvTrigger EVENT_RESOLVE_BEGIN None; EvTrigger EVENT_RESOLVE_END None;
                       EvTrigger EVENT_END None].
Proof.
  intros Ha Hall.
  destruct (forEach_unregistered fuel cv
              (getSourceFiles (createProgram host (map (normalized host) a)))
              (beginWorld host l a w))
    as (w1 & Hsrc & Hc & Hl & _).
  { simpl. apply lookup_snoc_length. }
  { exact Hall. }
  assert (convertSourceFiles host (S fuel) cv (beginWorld host l a w) = Ok tt w1) as Hrun.
  { unfold convertSourceFiles. unfold bind at 1, getContext. exact Hsrc. }
  pose proof (convert_run host _ _ _ _ _ _ Ha Hrun) as Hconvert. cbv zeta in Hconvert.
  set (pl := pipeline (createProgram host (map (normalized host) a)) allPhases) in *.
  eexists _, _, pl.1. split; [exact Hconvert|].
  cbn [projectReflection errors log logged]. rewrite Hc, Hl.
  split; [done|]. split; [by destruct pl|].
  cbn [beginWorld ctx project log closingEvents map app].
  by rewrite <- !app_assoc.
Qed.

End LifecycleMore.

(** * The small project again *)

Lemma priority_lists_are_sorted_registrations_witness :
  typeNodeConverters (applyOps Demo.host Demo.registrations)
  = sort (sortTies Demo.host) (byPriority Demo.host)
         (registrationOrder (hasNodeRole Demo.host) Demo.registrations) /\
  typeTypeConverters (applyOps Demo.host Demo.registrations)
  = sort (sortTies Demo.host) (byPriority Demo.host)
         (registrationOrder (hasTypeRole Demo.host) Demo.registrations).
Proof.
  apply (priority_lists_are_sorted_registrations Demo.host Demo.registrations).
  intros array x y. reflexivity.
Defined.

Lemma register_unregister_restores_witness :
  (12%nat ∉ typeNodeConverters (applyOps Demo.host [Register 10%nat; Register 11%nat])) /\
  (12%nat ∉ typeTypeConverters (applyOps Demo.host [Register 10%nat; Register 11%nat])) /\
  stableSort Demo.host /\
  applyOps Demo.host ([Register 10%nat; Register 11%nat]
                        ++ [Register 12%nat; Unregister 12%nat])
  = applyOps Demo.host [Register 10%nat; Register 11%nat].
Proof.
  assert (12%nat ∉ typeNodeConverters (applyOps Demo.host [Register 10%nat; Register 11%nat]))
    as Hn.
  { rewrite list_elem_of_In. vm_compute. intros [H|[]]. discriminate H. }
  assert (12%nat ∉ typeTypeConverters (applyOps Demo.host [Register 10%nat; Register 11%nat]))
    as Ht.
  { rewrite list_elem_of_In. vm_compute. intros [H|[]]. discriminate H. }
  assert (stableSort Demo.host) as Hstable by (intros array x y; reflexivity).
  split; [exact Hn|]. split; [exact Ht|]. split; [exact Hstable|].
  exact (proj2 (proj2 (proj2 (proj2 (proj2
           (register_unregister_restores Demo.host [Register 10%nat; Register 11%nat]
              12%nat Hn Ht))))) Hstable).
Defined.

Lemma convertType_highest_priority_witness :
  exists c' result w',
    convertType Demo.host (applyOps Demo.host Demo.registrations)
                (Some Demo.classNode) None Demo.world = Ok result w' /\
    c' ∈ typeNodeConverters (applyOps Demo.host Demo.registrations) /\
    acceptsNode Demo.host Demo.classNode (typeAt Demo.host Demo.classNode None) c' result /\
    priorityOf Demo.host 10%nat <= priorityOf Demo.host c'.
Proof.
  apply (convertType_highest_priority Demo.host Demo.registrations Demo.classNode None
           Demo.world 10%nat (Some {| typeId := 1; toString := "class" |})).
  - rewrite list_elem_of_In. vm_compute. right. left. reflexivity.
  - eexists _, _. split; [reflexivity|]. split; reflexivity.
Defined.

Lemma exec_feature_names_witness :
  exists names,
    names <> [] /\ Forall isFeatureName names /\
    "IE, Firefox" = joinFeatures names /\ TagRegex.split "IE, Firefox" = names.
Proof.
  exact (exec_feature_names "Text @notSupportedIn IE, Firefox more" "IE, Firefox" eq_refl).
Defined.

Lemma postProcess_kind_exact_witness :
  exists r w',
    postProcess Demo.host Demo.classNode (Some Demo.classReflection) Demo.world
    = Ok (Some r) w' /\
    (kind r = CoveoComponent <->
     kind Demo.classReflection = CoveoComponent \/
     (isDeclarationReflection Demo.classReflection = true /\
      (extendsComponent Demo.classReflection \/ implementsBindings Demo.classReflection))) /\
    (kind r <> CoveoComponent -> kind r = kind Demo.classReflection).
Proof.
  assert (exists r w',
             postProcess Demo.host Demo.classNode (Some Demo.classReflection) Demo.world
             = Ok (Some r) w') as (r & w' & E) by (vm_compute; eauto).
  exists r, w'. split; [exact E|].
  exact (postProcess_kind_exact Demo.host Demo.classNode Demo.classReflection
           Demo.world r w' E).
Defined.

Lemma postProcess_componentOptions_witness :
  exists r w',
    postProcess Demo.host Demo.classNode (Some Demo.classReflection) Demo.world
    = Ok (Some r) w' /\
    (flagCoveoComponentOptions r = true <->
     flagCoveoComponentOptions Demo.classReflection = true \/
     hasComponentOptions Demo.host Demo.classNode).
Proof.
  assert (exists r w',
             postProcess Demo.host Demo.classNode (Some Demo.classReflection) Demo.world
             = Ok (Some r) w') as (r & w' & E) by (vm_compute; eauto).
  exists r, w'. split; [exact E|].
  exact (postProcess_componentOptions Demo.host Demo.classNode Demo.classReflection
           Demo.world r w' E).
Defined.

Lemma postProcess_notSupportedIn_witness :
  exists r names,
    postProcess Demo.host Demo.classNode (Some Demo.classReflection) Demo.world
    = Ok (Some r) Demo.world /\
    notSupportedIn r = Some names /\
    names <> [] /\ Forall isFeatureName names /\ "IE, Firefox" = joinFeatures names /\
    comment r =
    Some (taggedComment Demo.host
            "A component. @notSupportedIn IE, Firefox @componentOptions" "IE, Firefox").
Proof.
  exact (postProcess_notSupportedIn Demo.host Demo.classNode
           "A component. @notSupportedIn IE, Firefox @componentOptions" "IE, Firefox"
           Demo.classReflection Demo.world eq_refl eq_refl).
Defined.

Lemma postProcess_frame_witness :
  exists r w',
    postProcess Demo.host Demo.sourceFile (Some (Demo.plainReflection 0)) Demo.world
    = Ok (Some r) w' /\
    w' = Demo.world /\
    reflId r = 0%nat /\
    isDeclarationReflection r = false /\
    extendedTypes r = None /\
    implementedTypes r = None /\
    (~ hasNotSupportedIn Demo.host Demo.sourceFile ->
     comment r = None /\ notSupportedIn r = None).
Proof.
  assert (exists r w',
             postProcess Demo.host Demo.sourceFile (Some (Demo.plainReflection 0)) Demo.world
             = Ok (Some r) w') as (r & w' & E) by (vm_compute; eauto).
  exists r, w'. split; [exact E|].
  exact (postProcess_frame Demo.host Demo.sourceFile (Demo.plainReflection 0)
           Demo.world r w' E).
Defined.

Lemma convertNode_calls_registered_witness :
  exists r w',
    convertNode Demo.host 5 Demo.converter Demo.sourceFile Demo.world = Ok r w' /\
    log w' = log Demo.world ++ [EvConvert 0%nat Demo.sourceFile; EvConvert 1%nat Demo.classNode] /\
    nodeConverters Demo.converter !! nodeKind Demo.host Demo.classNode = Some 1%nat.
Proof.
  exists (Some (Demo.plainReflection 0)).
  eexists. split; [vm_compute; reflexivity|]. split; [reflexivity|].
  eapply (convertNode_calls_registered Demo.host 5 Demo.converter Demo.sourceFile Demo.world
            _ _ [EvConvert 0%nat Demo.sourceFile; EvConvert 1%nat Demo.classNode]
            1%nat Demo.classNode).
  - vm_compute. reflexivity.
  - reflexivity.
  - right. left.
Defined.

Lemma convertNode_keeps_stacks_duplicate_free_witness :
  exists r w',
    convertNode Demo.host 5 Demo.converter Demo.sourceFile Demo.world = Ok r w' /\
    stacksDuplicateFree w'.
Proof.
  assert (exists r w',
             convertNode Demo.host 5 Demo.converter Demo.sourceFile Demo.world = Ok r w')
    as (r & w' & E) by (vm_compute; eauto).
  exists r, w'. split; [exact E|].
  apply (convertNode_keeps_stacks_duplicate_free Demo.host 5 Demo.converter
           Demo.sourceFile Demo.world r w'); [|exact E].
  constructor; [apply NoDup_nil_2 | constructor].
Defined.

Lemma compile_fixes_fileNames_witness :
  exists diagnostics w',
    compile Demo.host 5 Demo.converter Demo.world = Ok diagnostics w' /\
    (forall sourceFile, sourceFile ∈ [Demo.sourceFile] ->
       exists fileName,
         fileNameOf Demo.world !! sourceFile = Some fileName /\
         fileNameOf w' !! sourceFile = Some (fixedFileName Demo.host fileName)) /\
    (forall n, n ∉ [Demo.sourceFile] -> fileNameOf w' !! n = fileNameOf Demo.world !! n).
Proof.
  assert (exists diagnostics w',
             compile Demo.host 5 Demo.converter Demo.world = Ok diagnostics w')
    as (ds & w' & E) by (vm_compute; eauto).
  exists ds, w'. split; [exact E|].
  apply (compile_fixes_fileNames Demo.host 5 Demo.converter Demo.world ds w'); [|exact E].
  apply NoDup_singleton.
Defined.

Lemma convert_nothing_registered_witness :
  exists res w' asked,
    convert Demo.host 1 initialize 0%nat Demo.world = Ok res w' /\
    projectReflection res = [] /\
    (asked, errors res) =
      pipeline (createProgram Demo.host (map (normalized Demo.host) ["src\a.ts"; "src/a.ts"]))
               allPhases /\
    log w' = log Demo.world
               ++ [EvCreateProgram (map (normalized Demo.host) ["src\a.ts"; "src/a.ts"]);
                   EvTrigger EVENT_BEGIN None]
               ++ map EvDiagnostics asked
               ++ [EvTrigger EVENT_RESOLVE_BEGIN None; EvTrigger EVENT_RESOLVE_END None;
                   EvTrigger EVENT_END None].
Proof.
  apply (convert_nothing_registered Demo.host 0 initialize 0%nat
           ["src\a.ts"; "src/a.ts"] Demo.world eq_refl).
  constructor; [|constructor]. split; [reflexivity|]. by eexists.
Defined.
